(** * AsyncStorage backed by a [Map]: a shallow embedding of [index.js]

    The first part holds the definitions:

    - [JS]       the fragment of JavaScript the file relies on: values,
                 [typeof], truthiness, own properties in their enumeration
                 order, [Object.keys], [Object.assign], arrays;
    - [merge]    the "poor mans deep merge";
    - [MapObj]   the built-in [Map] that holds the data ([internal]);
    - [JSON]     [JSON.parse] and [JSON.stringify], as an interface, with an
                 instance ([Json]) further down;
    - the eleven functions handed to [assign], and [assign] itself with the
      callback / promise adapter it builds.

    The second part holds the properties: of the [Map], of the functions on
    single keys, of the adapter, of the functions on arrays of keys and
    pairs, and of the deep merge.

    Scope of the JavaScript model.  Objects are trees of own, enumerable,
    writable data properties.  The built-in prototype objects are not part
    of the model: reading or writing a property under one of the names the
    built-in objects define ([reserved]: [__proto__], [constructor],
    [toString], [length], ...) is where the model ends, and a computation
    that gets there stops with [Unmodelled].  The properties of the deep
    merge are stated for values that hold no such name ([ordinary]), on
    which the merge never gets there.  Numbers are the integers.  Strings
    are sequences of 8-bit characters.  The host's limits (call stack,
    memory) are not modelled. *)

From Stdlib Require Import List String Ascii ZArith NArith Bool Lia.
From Stdlib Require Import DecimalString DecimalN.
From Stdlib Require Import Permutation.
Import ListNotations.

Local Open Scope string_scope.
Local Open Scope list_scope.

(** ** Exceptions and results *)

(** What a [throw] carries.  [Error msg] is [new Error(msg)]; [TypeError],
    [SyntaxError] and [RangeError] are raised by the language itself.
    [Unmodelled] is no exception of the language: it marks the end of the
    model, where a computation reads or writes a property under a name of
    the built-in objects. *)
Inductive exn : Type :=
| Error (message : string)
| TypeError
| SyntaxError
| RangeError
| Unmodelled.

Inductive result (A : Type) : Type :=
| Ok (a : A)
| Throw (e : exn).

Arguments Ok {A} a.
Arguments Throw {A} e.

Definition rbind {A B : Type} (r : result A) (k : A -> result B) : result B :=
  match r with
  | Ok a => k a
  | Throw e => Throw e
  end.

Declare Scope result_scope.
Delimit Scope result_scope with result.
Notation "x <- r ;; k" := (rbind r (fun x => k))
  (at level 100, r at next level, right associativity) : result_scope.
Notation "' p <- r ;; k" := (rbind r (fun p => k))
  (at level 100, p pattern, r at next level, right associativity) : result_scope.

(** ** The JavaScript fragment *)

Module JS.

(** The class of an object.  The three wrappers are what [ToObject] makes of
    a primitive; [Fn] is a function (opaque, named for reference) and
    [MapRef] a [Map] instance. *)
Inductive kind : Type :=
| Plain
| Arr
| BoolObj (b : bool)
| NumObj (n : Z)
| StrObj (s : string)
| Fn (name : string)
| MapRef.

(** A value.  [props] lists the own enumerable properties an object was
    given, in the order [Object.keys] reports them. *)
#[local] Unset Elimination Schemes.
Inductive value : Type :=
| VUndefined
| VNull
| VBool (b : bool)
| VNum (n : Z)
| VStr (s : string)
| VObj (c : kind) (props : list (string * value)).
#[local] Set Elimination Schemes.

Definition props : Type := list (string * value).

(** [typeof v] *)
Definition typeof (v : value) : string :=
  match v with
  | VUndefined => "undefined"
  | VNull => "object"
  | VBool _ => "boolean"
  | VNum _ => "number"
  | VStr _ => "string"
  | VObj (Fn _) _ => "function"
  | VObj _ _ => "object"
  end.

(** [ToBoolean v], as used by [||] and [if]. *)
Definition truthy (v : value) : bool :=
  match v with
  | VUndefined | VNull => false
  | VBool b => b
  | VNum n => negb (n =? 0)%Z
  | VStr s => negb (s =? EmptyString)
  | VObj _ _ => true
  end.

(** [v instanceof Object]: every object of the model inherits from
    [Object.prototype]; no primitive does. *)
Definition instanceof_Object (v : value) : bool :=
  match v with
  | VObj _ _ => true
  | _ => false
  end.

(** *** Property keys *)

Definition index_key (n : N) : string :=
  NilEmpty.string_of_uint (N.to_uint n).

(** [array_index k] is [Some n] when [k] is the canonical decimal form of an
    array index [n] (0 <= n < 2^32 - 1).  Such keys are enumerated first, in
    increasing order. *)
Definition array_index (k : string) : option N :=
  match NilEmpty.uint_of_string k with
  | Some u =>
      let n := N.of_uint u in
      if (index_key n =? k) && (n <? 4294967295)%N then Some n else None
  | None => None
  end.

Fixpoint lookup (k : string) (ps : props) : option value :=
  match ps with
  | [] => None
  | (k', v) :: ps' => if k' =? k then Some v else lookup k ps'
  end.

Definition has_key (k : string) (ps : props) : bool :=
  match lookup k ps with Some _ => true | None => false end.

Fixpoint update (k : string) (v : value) (ps : props) : props :=
  match ps with
  | [] => []
  | (k', v') :: ps' =>
      if k' =? k then (k', v) :: ps' else (k', v') :: update k v ps'
  end.

(** A new array-index key goes before the first larger index and before
    every key that is not an index. *)
Fixpoint insert_index (n : N) (k : string) (v : value) (ps : props) : props :=
  match ps with
  | [] => [(k, v)]
  | (k', v') :: ps' =>
      match array_index k' with
      | Some m =>
          if (n <? m)%N then (k, v) :: ps
          else (k', v') :: insert_index n k v ps'
      | None => (k, v) :: ps
      end
  end.

(** Defining or overwriting a data property: an existing key keeps its
    place, a new index key is sorted in, any other new key goes last. *)
Definition put (k : string) (v : value) (ps : props) : props :=
  if has_key k ps then update k v ps
  else match array_index k with
       | Some n => insert_index n k v ps
       | None => ps ++ [(k, v)]
       end.

(** *** Strings as objects *)

Fixpoint chars_from (i : N) (s : string) : props :=
  match s with
  | EmptyString => []
  | String c s' => (index_key i, VStr (String c EmptyString)) :: chars_from (N.succ i) s'
  end.

(** The index properties of a string: one single-character string per
    position.  They are enumerable and read-only. *)
Definition chars (s : string) : props := chars_from 0 s.

(** The own enumerable properties of a value, once it is seen as an object
    ([ToObject]); [undefined] and [null] are handled by the callers. *)
Definition own_props (v : value) : props :=
  match v with
  | VStr s => chars s
  | VObj (StrObj s) ps => chars s ++ ps
  | VObj _ ps => ps
  | _ => []
  end.

(** *** The names of the built-in objects

    The property names that the objects of the language hold beside the own
    enumerable ones: on every function and on the prototype objects of
    Object, Function, Array, String, Number, Boolean and Map (ECMA-262 with
    its annex B), and the [length] of arrays, strings and functions. *)
Definition builtin_names : list string :=
  [ "__proto__"; "constructor"; "hasOwnProperty"; "isPrototypeOf";
    "propertyIsEnumerable"; "toLocaleString"; "toString"; "valueOf";
    "__defineGetter__"; "__defineSetter__"; "__lookupGetter__"; "__lookupSetter__";
    "length"; "name"; "prototype"; "arguments"; "caller"; "apply"; "bind"; "call";
    "at"; "concat"; "copyWithin"; "entries"; "every"; "fill"; "filter"; "find";
    "findIndex"; "findLast"; "findLastIndex"; "flat"; "flatMap"; "forEach";
    "includes"; "indexOf"; "join"; "keys"; "lastIndexOf"; "map"; "pop"; "push";
    "reduce"; "reduceRight"; "reverse"; "shift"; "slice"; "some"; "sort"; "splice";
    "toReversed"; "toSorted"; "toSpliced"; "unshift"; "values"; "with";
    "charAt"; "charCodeAt"; "codePointAt"; "endsWith"; "isWellFormed";
    "localeCompare"; "match"; "matchAll"; "normalize"; "padEnd"; "padStart";
    "repeat"; "replace"; "replaceAll"; "search"; "split"; "startsWith";
    "substring"; "toLocaleLowerCase"; "toLocaleUpperCase"; "toLowerCase";
    "toUpperCase"; "toWellFormed"; "trim"; "trimEnd"; "trimStart";
    "substr"; "anchor"; "big"; "blink"; "bold"; "fixed"; "fontcolor"; "fontsize";
    "italics"; "link"; "small"; "strike"; "sub"; "sup"; "trimLeft"; "trimRight";
    "toExponential"; "toFixed"; "toPrecision";
    "clear"; "delete"; "get"; "has"; "set"; "size"; "getOrInsert";
    "getOrInsertComputed" ].

(** A key under which the model neither reads nor writes. *)
Definition reserved (k : string) : bool :=
  existsb (String.eqb k) builtin_names.

(** [v[k]]: the own property, or [undefined]; a read under a built-in name
    would go to the prototype chain, and is not modelled.  A property of
    [undefined] or [null] cannot be read. *)
Definition get_prop (v : value) (k : string) : result value :=
  match v with
  | VUndefined | VNull => Throw TypeError
  | _ =>
      if reserved k then Throw Unmodelled
      else Ok (match lookup k (own_props v) with
               | Some x => x
               | None => VUndefined
               end)
  end.

(** An object that holds an own property under a built-in name. *)
Definition holds_builtin (v : value) : bool :=
  existsb (fun kv => reserved (fst kv)) (own_props v).

(** [ToObject v] *)
Definition to_object (v : value) : result value :=
  match v with
  | VUndefined | VNull => Throw TypeError
  | VBool b => Ok (VObj (BoolObj b) [])
  | VNum n => Ok (VObj (NumObj n) [])
  | VStr s => Ok (VObj (StrObj s) [])
  | VObj _ _ => Ok v
  end.

(** What the write of [v] under a built-in name [k] ends in, on an object
    of class [c].  Two writes are refused by the language: the [length] of
    a String object is read-only, and the [length] of an array is not set
    to a number outside 0 .. 2^32 - 1.  The others are not modelled: a new
    [length] cuts or extends an array, [__proto__] replaces the prototype. *)
Definition set_builtin (c : kind) (k : string) (v : value) : exn :=
  match c, v with
  | StrObj _, _ => if k =? "length" then TypeError else Unmodelled
  | Arr, VNum n =>
      if (k =? "length") && ((n <? 0)%Z || (4294967295 <? n)%Z) then RangeError
      else Unmodelled
  | _, _ => Unmodelled
  end.

(** [o[k] = v] as [Object.assign] performs it on an object [o] (a write
    that fails throws): the index properties of a String object cannot be
    written; a write under a built-in name ends as [set_builtin] says. *)
Definition set_prop (o : value) (k : string) (v : value) : result value :=
  match o with
  | VObj c ps =>
      if reserved k then Throw (set_builtin c k v)
      else match c with
           | StrObj s =>
               if has_key k (chars s) then Throw TypeError
               else Ok (VObj (StrObj s) (put k v ps))
           | _ => Ok (VObj c (put k v ps))
           end
  | _ => Throw TypeError
  end.

(** [Object.keys(v)] *)
Definition Object_keys (v : value) : result (list string) :=
  match v with
  | VUndefined | VNull => Throw TypeError
  | _ => Ok (map fst (own_props v))
  end.

Fixpoint assign_props (o : value) (ps : props) : result value :=
  match ps with
  | [] => Ok o
  | (k, v) :: ps' => (o' <- set_prop o k v ;; assign_props o' ps')%result
  end.

(** [Object.assign(to, from)] with a single source: [to] is turned into an
    object, an [undefined] or [null] source is skipped, every own enumerable
    property of the source is then written to the target, in order. *)
Definition Object_assign (to from : value) : result value :=
  (o <- to_object to ;;
   match from with
   | VUndefined | VNull => Ok o
   | _ => assign_props o (own_props from)
   end)%result.

(** *** Arrays *)

Fixpoint elements_from (i : N) (l : list value) : props :=
  match l with
  | [] => []
  | v :: l' => (index_key i, v) :: elements_from (N.succ i) l'
  end.

(** The array literal [[v0, v1, ...]]. *)
Definition array_of (l : list value) : value := VObj Arr (elements_from 0 l).

(** The object literal [{k0: v0, k1: v1, ...}]: properties are defined one
    after the other. *)
Definition object_of (l : props) : value :=
  VObj Plain (fold_left (fun ps kv => put (fst kv) (snd kv) ps) l []).

(** The elements an array iteration ([map], [forEach]) visits: the values
    at index keys, in increasing order. *)
Definition elements (ps : props) : list (string * value) :=
  filter (fun kv => match array_index (fst kv) with Some _ => true | None => false end) ps.

(** Induction on a value reaches the values stored in its properties. *)
Definition value_ind (P : value -> Prop)
    (Hundefined : P VUndefined) (Hnull : P VNull)
    (Hbool : forall b, P (VBool b)) (Hnum : forall n, P (VNum n))
    (Hstr : forall s, P (VStr s))
    (Hobj : forall c ps, Forall (fun kv => P (snd kv)) ps -> P (VObj c ps)) :
    forall v, P v :=
  fix go (v : value) : P v :=
    match v with
    | VUndefined => Hundefined
    | VNull => Hnull
    | VBool b => Hbool b
    | VNum n => Hnum n
    | VStr s => Hstr s
    | VObj c ps =>
        Hobj c ps
          ((fix all (l : props) : Forall (fun kv => P (snd kv)) l :=
              match l with
              | [] => Forall_nil _
              | kv :: l' => Forall_cons kv (go (snd kv)) (all l')
              end) ps)
    end.

End JS.

Import JS.

(** ** The deep merge (index.js, [merge])

    [merge target data] returns the value the JavaScript call returns
    together with [data] as the call leaves it: the function writes into the
    objects stored in [data] ([Object.assign(data[key], ...)]), and its caller
    reads them afterwards.  The objects stored in [target] are written too,
    by the recursive calls; each of them sits at a key that the closing
    [Object.assign(target || {}, data)] overwrites, so [target] is read here
    as it was passed. *)
Fixpoint merge (target data : value) {struct data} : result (value * value) :=
  let finish (data' : value) : result (value * value) :=
    (r <- Object_assign (if truthy target then target else VObj Plain []) data' ;;
     Ok (r, data'))%result in
  match data with
  | VObj c ps =>
      (ps' <- (fix each (l : props) : result props :=
                 match l with
                 | [] => Ok []
                 | (key, d) :: l' =>
                     if instanceof_Object d then
                       t <- get_prop target key ;;
                       ' (m, d1) <- merge t d ;;
                       d2 <- Object_assign d1 m ;;
                       rest <- each l' ;;
                       Ok ((key, d2) :: rest)
                     else
                       rest <- each l' ;;
                       Ok ((key, d) :: rest)
                 end) ps ;;
       finish (VObj c ps'))%result
  | _ =>
      (_ <- Object_keys data ;;
       finish data)%result
  end.

(** The [forEach] of [merge] on its own: the properties of [data] after the
    calls [Object.assign(data[key], merge(target[key], data[key]))]. *)
Fixpoint merge_each (target : value) (l : props) : result props :=
  match l with
  | [] => Ok []
  | (key, d) :: l' =>
      if instanceof_Object d then
        (t <- get_prop target key ;;
         ' (m, d1) <- merge t d ;;
         d2 <- Object_assign d1 m ;;
         rest <- merge_each target l' ;;
         Ok ((key, d2) :: rest))%result
      else
        (rest <- merge_each target l' ;;
         Ok ((key, d) :: rest))%result
  end.

(** What [merge] closes with: [Object.assign(target || {}, data)]. *)
Definition merge_finish (target data : value) : result (value * value) :=
  (r <- Object_assign (if truthy target then target else VObj Plain []) data ;;
   Ok (r, data))%result.

(** ** The built-in [Map] (index.js, [internal])

    Entries are kept in insertion order.  Keys are compared with
    SameValueZero, which on primitives is equality; an object key is equal
    to the same object only, and the model, which has no object identity,
    treats every object key as a new one. *)
Module MapObj.

Definition t : Type := list (value * value).

Definition same_value_zero (a b : value) : bool :=
  match a, b with
  | VUndefined, VUndefined => true
  | VNull, VNull => true
  | VBool x, VBool y => Bool.eqb x y
  | VNum x, VNum y => (x =? y)%Z
  | VStr x, VStr y => (x =? y)%string
  | _, _ => false
  end.

(** [m.has(k)] *)
Fixpoint has (m : t) (k : value) : bool :=
  match m with
  | [] => false
  | (k', _) :: m' => same_value_zero k' k || has m' k
  end.

(** [m.get(k)]: [undefined] when there is no entry. *)
Fixpoint get (m : t) (k : value) : value :=
  match m with
  | [] => VUndefined
  | (k', v) :: m' => if same_value_zero k' k then v else get m' k
  end.

(** [m.set(k, v)]: an existing entry keeps its place, a new one goes last. *)
Fixpoint set (m : t) (k v : value) : t :=
  match m with
  | [] => [(k, v)]
  | (k', v') :: m' =>
      if same_value_zero k' k then (k', v) :: m' else (k', v') :: set m' k v
  end.

(** [m.delete(k)]: the map without the entry; the call returns [has m k]. *)
Definition delete (m : t) (k : value) : t :=
  filter (fun e => negb (same_value_zero (fst e) k)) m.

(** [m.clear()] *)
Definition clear (m : t) : t := [].

(** [m.keys()], drained *)
Definition keys (m : t) : list value := map fst m.

End MapObj.

(** ** [JSON.parse] and [JSON.stringify]

    Both are built into the language.  The functions of the file are written
    against this interface; [mergeItem] relies on one fact about it:
    [JSON.parse(undefined)] reads the text ["undefined"], which is not JSON. *)
Class JSON : Type := {
  JSON_parse : value -> result value;
  JSON_stringify : value -> value;
  JSON_parse_undefined : JSON_parse VUndefined = Throw SyntaxError
}.

(** ** The functions of the API (index.js, the arguments of [assign])

    Each function reads and writes [internal]; a [throw] leaves [internal]
    as it is at that point. *)
Definition M (A : Type) : Type := MapObj.t -> result A * MapObj.t.

Definition ret {A : Type} (a : A) : M A := fun internal => (Ok a, internal).

Definition throw {A : Type} (e : exn) : M A := fun internal => (Throw e, internal).

Definition bind {A B : Type} (c : M A) (k : A -> M B) : M B :=
  fun internal =>
    match c internal with
    | (Ok a, internal') => k a internal'
    | (Throw e, internal') => (Throw e, internal')
    end.

(** A computation that does not touch [internal]. *)
Definition lift {A : Type} (r : result A) : M A := fun internal => (r, internal).

Declare Scope store_scope.
Delimit Scope store_scope with store.
Notation "x <- c ;; k" := (bind c (fun x => k))
  (at level 100, c at next level, right associativity) : store_scope.
Notation "c ;;; k" := (bind c (fun _ => k))
  (at level 100, right associativity) : store_scope.

(** The operations of [internal]. *)
Definition internal_has (name : value) : M bool :=
  fun internal => (Ok (MapObj.has internal name), internal).

Definition internal_get (name : value) : M value :=
  fun internal => (Ok (MapObj.get internal name), internal).

Definition internal_ref : value := VObj MapRef [].

Definition internal_set (name v : value) : M value :=
  fun internal => (Ok internal_ref, MapObj.set internal name v).

Definition internal_delete (name : value) : M value :=
  fun internal => (Ok (VBool (MapObj.has internal name)), MapObj.delete internal name).

Definition internal_clear : M value :=
  fun internal => (Ok VUndefined, MapObj.clear internal).

Definition internal_keys : M (list value) :=
  fun internal => (Ok (MapObj.keys internal), internal).

(** [f] applied to each element in turn, as [Array.prototype.map] and
    [forEach] do: the first [throw] ends the iteration. *)
Fixpoint iterate {A : Type} (f : value -> M A) (l : list value) : M (list A) :=
  match l with
  | [] => ret []
  | x :: l' => (y <- f x ;; ys <- iterate f l' ;; ret (y :: ys))%store
  end.

(** [a.map(f)]: on an array, a new array with the results at the indices of
    [a].  No other value of the model inherits a [map], and calling what is
    not there is a TypeError.  An object with an own property under a
    built-in name ([map] itself, or the [constructor] that [map] consults)
    is not iterated by the model. *)
Definition Array_map (a : value) (f : value -> M value) : M value :=
  match a with
  | VObj c ps =>
      if holds_builtin a then throw Unmodelled
      else match c with
           | Arr =>
               (ys <- iterate f (map snd (elements ps)) ;;
                ret (VObj Arr (combine (map fst (elements ps)) ys)))%store
           | _ => throw TypeError
           end
  | _ => throw TypeError
  end.

(** [a.forEach(f)]: as [map], without a result.  A [Map] has a [forEach] of
    its own, over its entries, which is not modelled. *)
Definition Array_forEach (a : value) (f : value -> M value) : M value :=
  match a with
  | VObj c ps =>
      if holds_builtin a then throw Unmodelled
      else match c with
           | Arr => (iterate f (map snd (elements ps)) ;;; ret VUndefined)%store
           | MapRef => throw Unmodelled
           | _ => throw TypeError
           end
  | _ => throw TypeError
  end.

Section Storage.

Context {J : JSON}.

Definition getItem (name : value) : M value :=
  (present <- internal_has name ;;
   if negb present then ret VNull
   else internal_get name)%store.

Definition setItem (name value : JS.value) : M JS.value :=
  if negb (typeof value =? "string") then
    throw (Error "AsyncStorage requires strings to be stored")
  else internal_set name value.

Definition mergeItem (name value : JS.value) : M JS.value :=
  if negb (typeof value =? "string") then
    throw (Error "AsyncStorage requires strings to be stored")
  else
    (old <- internal_get name ;;
     oldValue <- lift (JSON_parse old) ;;
     newValue <- lift (JSON_parse value) ;;
     merged <- lift (merge oldValue newValue) ;;
     internal_set name (JSON_stringify (fst merged)))%store.

Definition removeItem (name : value) : M value := internal_delete name.

Definition multiGet (names : value) : M value :=
  Array_map names (fun name =>
    (present <- internal_has name ;;
     v <- (if present then internal_get name else ret VNull) ;;
     ret (array_of [name; v]))%store).

Definition multiSet (pairs : value) : M value :=
  (Array_forEach pairs (fun pair =>
     (p1 <- lift (get_prop pair "1") ;;
      if negb (typeof p1 =? "string") then
        throw (Error "AsyncStorage requires strings to be stored")
      else
        (p0 <- lift (get_prop pair "0") ;;
         internal_set p0 p1))%store) ;;;
   ret pairs)%store.

Definition multiMerge (pairs : value) : M value :=
  Array_forEach pairs (fun pair =>
    (p1 <- lift (get_prop pair "1") ;;
     if negb (typeof p1 =? "string") then
       throw (Error "AsyncStorage requires strings to be merged")
     else
       (p0 <- lift (get_prop pair "0") ;;
        old <- internal_get p0 ;;
        oldValue <- lift (JSON_parse old) ;;
        newValue <- lift (JSON_parse p1) ;;
        merged <- lift (merge oldValue newValue) ;;
        internal_set p0 (JSON_stringify (fst merged))))%store).

Definition multiRemove (names : value) : M value :=
  Array_map names internal_delete.

Definition getAllKeys : M value :=
  (result <- internal_keys ;; ret (array_of result))%store.

Definition clear : M value := internal_clear.

Definition flushGetRequests : M value := ret VUndefined.

(** ** The callback / promise adapter (index.js, [assign])

    [args[i]] of a call: a parameter without an argument is [undefined]. *)
Definition arg (i : nat) (args : list value) : value := nth i args VUndefined.

(** What a call of the API ends in: the callback it was given is called with
    [(error, result)], or the promise it returned is rejected or resolved.
    [error] is [None] for [null]. *)
Inductive settlement : Type :=
| Called (callback : value) (error : option exn) (result : value)
| Rejected (error : exn)
| Resolved (result : value).

(** The task [wrapper] hands to [setImmediate]. *)
Definition forcedAsync (fn : list value -> M value) (args : list value) :
    MapObj.t -> settlement * MapObj.t :=
  fun internal =>
    let '(callback, args) :=
      if typeof (last args VUndefined) =? "function"
      then (last args VUndefined, removelast args)
      else (VUndefined, args) in
    let '(outcome, internal') := fn args internal in
    let '(error, result) :=
      match outcome with
      | Ok v => (None, v)
      | Throw e => (Some e, VUndefined)
      end in
    if truthy callback then (Called callback error result, internal')
    else match error with
         | Some e => (Rejected e, internal')
         | None => (Resolved result, internal')
         end.

(** [wrapper(...args)] returns a promise and queues [forcedAsync]; nothing
    else happens in the call.  The model gives the wrapper the meaning of
    its task, run on [internal] as it is when the task is taken up. *)
Definition wrapper (fn : list value -> M value) (args : list value) :
    MapObj.t -> settlement * MapObj.t :=
  forcedAsync fn args.

(** [AsyncStorage[name] = wrapper]: a new name goes last, a name that is
    there keeps its place. *)
Definition api : Type :=
  list (string * (list value -> MapObj.t -> settlement * MapObj.t)).

Fixpoint assign_name (name : string)
    (w : list value -> MapObj.t -> settlement * MapObj.t) (table : api) : api :=
  match table with
  | [] => [(name, w)]
  | (name', w') :: table' =>
      if (name' =? name)%string then (name', w) :: table'
      else (name', w') :: assign_name name w table'
  end.

Definition assign (name : string) (fn : list value -> M value) (table : api) : api :=
  assign_name name (wrapper fn) table.

(** The calls of [assign], in the order of the file; a function takes its
    parameters from the arguments by position. *)
Definition functions : list (string * (list value -> M value)) :=
  [ ("getItem", fun args => getItem (arg 0 args));
    ("setItem", fun args => setItem (arg 0 args) (arg 1 args));
    ("mergeItem", fun args => mergeItem (arg 0 args) (arg 1 args));
    ("removeItem", fun args => removeItem (arg 0 args));
    ("multiGet", fun args => multiGet (arg 0 args));
    ("multiSet", fun args => multiSet (arg 0 args));
    ("multiMerge", fun args => multiMerge (arg 0 args));
    ("multiRemove", fun args => multiRemove (arg 0 args));
    ("getAllKeys", fun _ => getAllKeys);
    ("clear", fun _ => clear);
    ("flushGetRequests", fun _ => flushGetRequests) ].

(** The exported object, once the file has run. *)
Definition AsyncStorage : api :=
  fold_left (fun table entry => assign (fst entry) (snd entry) table) functions [].

End Storage.

(** ** A reading of [JSON.parse] and [JSON.stringify]

    An instance of the [JSON] interface, for the texts the model can hold.
    It follows the grammar of ECMA-404 and the property order of the
    language, with two limits that come from the values of the model: a
    number is an integer literal, and a [\u] escape names one of the 8-bit
    characters.  A text beyond these limits is outside the instance, which
    answers SyntaxError for it. *)
Module Json.

Local Open Scope string_scope.

Definition dquote : ascii := "034"%char.

Definition is_space (c : ascii) : bool :=
  match nat_of_ascii c with
  | 32 | 9 | 10 | 13 => true
  | _ => false
  end.

Definition is_digit (c : ascii) : bool :=
  ((48 <=? nat_of_ascii c) && (nat_of_ascii c <=? 57))%nat.

Fixpoint skip (s : string) : string :=
  match s with
  | String c s' => if is_space c then skip s' else s
  | EmptyString => s
  end.

(** [literal lit s]: [s] without its prefix [lit]. *)
Fixpoint literal (lit s : string) : option string :=
  match lit, s with
  | EmptyString, _ => Some s
  | String a lit', String b s' => if Ascii.eqb a b then literal lit' s' else None
  | String _ _, EmptyString => None
  end.

(** The longest run of digits at the head of [s], and the rest. *)
Fixpoint digits (s : string) : string * string :=
  match s with
  | String c s' =>
      if is_digit c then let '(d, r) := digits s' in (String c d, r)
      else (EmptyString, s)
  | EmptyString => (EmptyString, s)
  end.

(** An unsigned integer literal: [0], or digits that do not start with 0;
    a fraction or an exponent is not read. *)
Definition natural (s : string) : option (Z * string) :=
  let '(d, r) := digits s in
  match NilEmpty.uint_of_string d with
  | Some u =>
      let n := N.of_uint u in
      if negb (index_key n =? d) then None
      else match r with
           | String c _ =>
               if Ascii.eqb c "." || Ascii.eqb c "e" || Ascii.eqb c "E"
               then None else Some (Z.of_N n, r)
           | EmptyString => Some (Z.of_N n, r)
           end
  | None => None
  end.

Definition hex_digit (c : ascii) : option nat :=
  let n := nat_of_ascii c in
  if ((48 <=? n) && (n <=? 57))%nat then Some (n - 48)
  else if ((65 <=? n) && (n <=? 70))%nat then Some (n - 55)
  else if ((97 <=? n) && (n <=? 102))%nat then Some (n - 87)
  else None.

Definition escape (e : ascii) : option ascii :=
  if Ascii.eqb e dquote then Some dquote
  else if Ascii.eqb e "\" then Some "\"%char
  else if Ascii.eqb e "/" then Some "/"%char
  else if Ascii.eqb e "b" then Some "008"%char
  else if Ascii.eqb e "f" then Some "012"%char
  else if Ascii.eqb e "n" then Some "010"%char
  else if Ascii.eqb e "r" then Some "013"%char
  else if Ascii.eqb e "t" then Some "009"%char
  else None.

Definition push (c : ascii) (r : option (string * string)) : option (string * string) :=
  match r with
  | Some (t, rest) => Some (String c t, rest)
  | None => None
  end.

(** The characters of a string literal after its opening quote, and what
    follows the closing quote. *)
Fixpoint string_body (s : string) : option (string * string) :=
  match s with
  | EmptyString => None
  | String c s' =>
      if Ascii.eqb c dquote then Some (EmptyString, s')
      else if Ascii.eqb c "\" then
        match s' with
        | String e s'' =>
            match escape e with
            | Some c' => push c' (string_body s'')
            | None =>
                if Ascii.eqb e "u" then
                  match s'' with
                  | String h1 (String h2 (String h3 (String h4 r))) =>
                      match hex_digit h1, hex_digit h2, hex_digit h3, hex_digit h4 with
                      | Some 0, Some 0, Some a, Some b =>
                          push (ascii_of_nat (16 * a + b)) (string_body r)
                      | _, _, _, _ => None
                      end
                  | _ => None
                  end
                else None
            end
        | EmptyString => None
        end
      else if (nat_of_ascii c <? 32)%nat then None
      else push c (string_body s')
  end.

(** The parser proper: a value, the members of an object after its brace,
    the elements of an array after its bracket. *)
Fixpoint parse_value (fuel : nat) (s : string) : option (value * string) :=
  match fuel with
  | O => None
  | S fuel' =>
      match skip s with
      | EmptyString => None
      | String c r =>
          if Ascii.eqb c "{" then
            match skip r with
            | String c' r' =>
                if Ascii.eqb c' "}" then Some (VObj Plain [], r')
                else parse_members fuel' [] r
            | EmptyString => None
            end
          else if Ascii.eqb c "[" then
            match skip r with
            | String c' r' =>
                if Ascii.eqb c' "]" then Some (array_of [], r')
                else parse_elements fuel' [] r
            | EmptyString => None
            end
          else if Ascii.eqb c dquote then
            match string_body r with
            | Some (t, r') => Some (VStr t, r')
            | None => None
            end
          else if Ascii.eqb c "t" then
            option_map (fun r' => (VBool true, r')) (literal "rue" r)
          else if Ascii.eqb c "f" then
            option_map (fun r' => (VBool false, r')) (literal "alse" r)
          else if Ascii.eqb c "n" then
            option_map (fun r' => (VNull, r')) (literal "ull" r)
          else if Ascii.eqb c "-" then
            option_map (fun nr => (VNum (- fst nr), snd nr)) (natural r)
          else
            option_map (fun nr => (VNum (fst nr), snd nr)) (natural (String c r))
      end
  end
with parse_members (fuel : nat) (acc : props) (s : string) : option (value * string) :=
  match fuel with
  | O => None
  | S fuel' =>
      match skip s with
      | EmptyString => None
      | String q r =>
          if negb (Ascii.eqb q dquote) then None
          else
            match string_body r with
            | None => None
            | Some (k, r1) =>
                match skip r1 with
                | EmptyString => None
                | String colon r2 =>
                    if negb (Ascii.eqb colon ":") then None
                    else
                      match parse_value fuel' r2 with
                      | None => None
                      | Some (v, r3) =>
                          match skip r3 with
                          | EmptyString => None
                          | String c r4 =>
                              if Ascii.eqb c "," then parse_members fuel' (put k v acc) r4
                              else if Ascii.eqb c "}" then Some (VObj Plain (put k v acc), r4)
                              else None
                          end
                      end
                end
            end
      end
  end
with parse_elements (fuel : nat) (acc : list value) (s : string) : option (value * string) :=
  match fuel with
  | O => None
  | S fuel' =>
      match parse_value fuel' s with
      | None => None
      | Some (v, r) =>
          match skip r with
          | EmptyString => None
          | String c r' =>
              if Ascii.eqb c "," then parse_elements fuel' (acc ++ [v])%list r'
              else if Ascii.eqb c "]" then Some (array_of (acc ++ [v])%list, r')
              else None
          end
      end
  end.

(** [JSON.parse] of a text: one value, white space around it, nothing else.
    An array or an object spends two units of fuel on its brackets and one
    on each item, so the length of the text is fuel enough. *)
Definition parse_text (s : string) : result value :=
  match parse_value (S (String.length s)) s with
  | Some (v, r) =>
      match skip r with
      | EmptyString => Ok v
      | String _ _ => Throw SyntaxError
      end
  | None => Throw SyntaxError
  end.

(** *** Printing *)

Definition decimal (n : Z) : string := NilZero.string_of_int (Z.to_int n).

Definition hex_char (n : nat) : ascii :=
  if (n <? 10)%nat then ascii_of_nat (48 + n) else ascii_of_nat (87 + n).

Definition escaped (c : ascii) : string :=
  if Ascii.eqb c dquote then String "\" (String dquote EmptyString)
  else if Ascii.eqb c "\" then "\\"
  else match nat_of_ascii c with
       | 8 => "\b"
       | 9 => "\t"
       | 10 => "\n"
       | 12 => "\f"
       | 13 => "\r"
       | n =>
           if (n <? 32)%nat
           then "\u00" ++ String (hex_char (n / 16)) (String (hex_char (n mod 16)) EmptyString)
           else String c EmptyString
       end.

Fixpoint escaped_string (s : string) : string :=
  match s with
  | EmptyString => EmptyString
  | String c s' => escaped c ++ escaped_string s'
  end.

Definition quoted (s : string) : string :=
  String dquote (escaped_string s ++ String dquote EmptyString).

Definition comma (i : N) : string := if (i =? 0)%N then EmptyString else ",".

(** The holes of an array from index [i], [n] of them, each printed as
    [filler]. *)
Fixpoint holes (filler : string) (n : nat) (i : N) : string :=
  match n with
  | O => EmptyString
  | S n' => comma i ++ filler ++ holes filler n' (N.succ i)
  end.

(** The text [JSON.stringify] produces, [None] where it returns
    [undefined]. *)
Fixpoint stringify (v : value) : option string :=
  match v with
  | VUndefined => None
  | VNull => Some "null"
  | VBool b => Some (if b then "true" else "false")
  | VNum n => Some (decimal n)
  | VStr s => Some (quoted s)
  | VObj c ps =>
      match c with
      | Fn _ => None
      | BoolObj b => Some (if b then "true" else "false")
      | NumObj n => Some (decimal n)
      | StrObj s => Some (quoted s)
      | Arr =>
          Some ("[" ++
            (fix items (next : N) (l : props) : string :=
               match l with
               | [] => EmptyString
               | (k, x) :: l' =>
                   match array_index k with
                   | Some i =>
                       holes "null" (N.to_nat (i - next)) next ++ comma i ++
                       match stringify x with Some t => t | None => "null" end ++
                       items (N.succ i) l'
                   | None => items next l'
                   end
               end) 0%N ps ++ "]")
      | Plain | MapRef =>
          Some ("{" ++
            (fix members (first : bool) (l : props) : string :=
               match l with
               | [] => EmptyString
               | (k, x) :: l' =>
                   match stringify x with
                   | Some t =>
                       (if first then EmptyString else ",") ++
                       quoted k ++ ":" ++ t ++ members false l'
                   | None => members first l'
                   end
               end) true ps ++ "}")
      end
  end.

(** [ToString v], which [JSON.parse] applies to its argument. *)
Fixpoint to_text (v : value) : string :=
  match v with
  | VUndefined => "undefined"
  | VNull => "null"
  | VBool b => if b then "true" else "false"
  | VNum n => decimal n
  | VStr s => s
  | VObj c ps =>
      match c with
      | Plain => "[object Object]"
      | MapRef => "[object Map]"
      | Fn name => "function " ++ name ++ "() { [native code] }"
      | BoolObj b => if b then "true" else "false"
      | NumObj n => decimal n
      | StrObj s => s
      | Arr =>
          (fix join (next : N) (l : props) : string :=
             match l with
             | [] => EmptyString
             | (k, x) :: l' =>
                 match array_index k with
                 | Some i =>
                     holes EmptyString (N.to_nat (i - next)) next ++ comma i ++
                     match x with
                     | VUndefined | VNull => EmptyString
                     | _ => to_text x
                     end ++ join (N.succ i) l'
                 | None => join next l'
                 end
             end) 0%N ps
      end
  end.

Definition parse (v : value) : result value := parse_text (to_text v).

Definition to_json (v : value) : value :=
  match stringify v with
  | Some t => VStr t
  | None => VUndefined
  end.

End Json.

#[export] Instance json : JSON := {
  JSON_parse := Json.parse;
  JSON_stringify := Json.to_json;
  JSON_parse_undefined := eq_refl
}.

(** ** Vocabulary of the statements *)

(** [null] or [undefined]. *)
Definition nullish (v : value) : bool :=
  match v with
  | VUndefined | VNull => true
  | _ => false
  end.

(** "Exactly one of [error] and [result] is non-null": [null] on one side,
    something else than [null] on the other. *)
Definition exactly_one_non_null (error : option exn) (result : value) : Prop :=
  (error = None /\ result <> VNull) \/ (error <> None /\ result = VNull).

(** The largest length an array can have, [2^32 - 1]. *)
Definition max_length : N := 4294967295.

(** The pair [[k, v]] as [multiSet] and [multiMerge] take it. *)
Definition pair_of (kv : string * value) : value :=
  array_of [VStr (fst kv); snd kv].

(** [set] applied to each pair, in order. *)
Definition set_all (l : list (string * value)) (internal : MapObj.t) : MapObj.t :=
  fold_left (fun m kv => MapObj.set m (VStr (fst kv)) (snd kv)) l internal.

(** [delete] applied to each key, in order. *)
Definition delete_all (ks : list string) (internal : MapObj.t) : MapObj.t :=
  fold_left (fun m k => MapObj.delete m (VStr k)) ks internal.

(** What the [forEach] of [merge] makes of one property of [data]. *)
Definition merged_property (target : value) (p p' : string * value) : Prop :=
  fst p' = fst p /\
  if instanceof_Object (snd p) then
    exists t m d1,
      get_prop target (fst p) = Ok t /\
      merge t (snd p) = Ok (m, d1) /\
      Object_assign d1 m = Ok (snd p')
  else snd p' = snd p.

(** A string or a String object: what has read-only index properties. *)
Definition string_like (v : value) : bool :=
  match v with
  | VStr _ | VObj (StrObj _) _ => true
  | _ => false
  end.

(** A value none of whose properties holds an object. *)
Definition flat (v : value) : Prop :=
  Forall (fun kv => instanceof_Object (snd kv) = false) (own_props v).

(** A value within the model: at no depth does a property of it sit under
    a built-in name. *)
Fixpoint ordinary (v : value) : bool :=
  match v with
  | VObj _ ps =>
      (fix all (l : props) : bool :=
         match l with
         | [] => true
         | (k, x) :: l' => negb (reserved k) && ordinary x && all l'
         end) ps
  | _ => true
  end.

Definition ordinary_props (ps : props) : Prop :=
  Forall (fun kv => reserved (fst kv) = false /\ ordinary (snd kv) = true) ps.

(** Every value that [internal] holds is a string. *)
Definition strings_only (internal : MapObj.t) : Prop :=
  Forall (fun entry => typeof (snd entry) = "string") internal.

(** [mergeItem] on each pair, in order, up to the first that throws. *)
Fixpoint mergeItem_each {J : JSON} (l : list (string * value)) : M value :=
  match l with
  | [] => ret VUndefined
  | kv :: l' => (mergeItem (VStr (fst kv)) (snd kv) ;;; mergeItem_each l')%store
  end.

(** The operations that only read. *)
Definition readers : list string :=
  ["getItem"; "multiGet"; "getAllKeys"; "flushGetRequests"].

(** The operations that take an array. *)
Definition batch : list string :=
  ["multiGet"; "multiSet"; "multiMerge"; "multiRemove"].

(** The entries of the tables [functions] and [AsyncStorage], one by one. *)
Ltac table_cases H :=
  simpl in H;
  repeat (destruct H as [H | H];
          [try discriminate H; inversion H; subst; clear H | ]);
  try contradiction.

(** * Properties *)

(** ** The [Map] *)

Section MapFacts.

Import MapObj.

Lemma same_value_zero_eq (a b : value) : same_value_zero a b = true -> a = b.
Proof.
  destruct a, b; simpl; try discriminate; intros H; try reflexivity.
  - apply Bool.eqb_prop in H. now subst.
  - apply Z.eqb_eq in H. now subst.
  - apply String.eqb_eq in H. now subst.
Qed.

Lemma same_value_zero_str (k k' : string) :
  same_value_zero (VStr k) (VStr k') = (k =? k')%string.
Proof. reflexivity. Qed.

Lemma has_set_same (m : t) (k v : value) :
  same_value_zero k k = true -> has (set m k v) k = true.
Proof.
  intros Hk. induction m as [|[k' v'] m IH]; simpl.
  - now rewrite Hk.
  - destruct (same_value_zero k' k) eqn:E; simpl; rewrite E; simpl; auto.
Qed.

Lemma get_set_same (m : t) (k v : value) :
  same_value_zero k k = true -> get (set m k v) k = v.
Proof.
  intros Hk. induction m as [|[k' v'] m IH]; simpl.
  - now rewrite Hk.
  - destruct (same_value_zero k' k) eqn:E; simpl; rewrite E; auto.
Qed.

Lemma get_set_other (m : t) (k k2 v : value) :
  same_value_zero k k2 = false -> get (set m k v) k2 = get m k2.
Proof.
  intros Hk. induction m as [|[k' v'] m IH]; simpl.
  - now rewrite Hk.
  - destruct (same_value_zero k' k) eqn:E; simpl.
    + apply same_value_zero_eq in E. subst k'. now rewrite Hk.
    + now rewrite IH.
Qed.

Lemma has_set_other (m : t) (k k2 v : value) :
  same_value_zero k k2 = false -> has (set m k v) k2 = has m k2.
Proof.
  intros Hk. induction m as [|[k' v'] m IH]; simpl.
  - now rewrite Hk.
  - destruct (same_value_zero k' k) eqn:E; simpl.
    + apply same_value_zero_eq in E. subst k'. now rewrite Hk.
    + now rewrite IH.
Qed.

Lemma has_delete_same (m : t) (k : value) : has (delete m k) k = false.
Proof.
  induction m as [|[k' v'] m IH]; simpl; auto.
  destruct (same_value_zero k' k) eqn:E; simpl; auto.
  now rewrite E.
Qed.

Lemma has_delete_other (m : t) (k k2 : value) :
  same_value_zero k k2 = false -> has (delete m k) k2 = has m k2.
Proof.
  intros Hk. induction m as [|[k' v'] m IH]; simpl; auto.
  destruct (same_value_zero k' k) eqn:E; simpl.
  - apply same_value_zero_eq in E. subst k'. now rewrite Hk.
  - now rewrite IH.
Qed.

Lemma get_delete_other (m : t) (k k2 : value) :
  same_value_zero k k2 = false -> get (delete m k) k2 = get m k2.
Proof.
  intros Hk. induction m as [|[k' v'] m IH]; simpl; auto.
  destruct (same_value_zero k' k) eqn:E; simpl.
  - apply same_value_zero_eq in E. subst k'. now rewrite Hk.
  - now rewrite IH.
Qed.

Lemma get_absent (m : t) (k : value) : has m k = false -> get m k = VUndefined.
Proof.
  induction m as [|[k' v'] m IH]; simpl; auto.
  destruct (same_value_zero k' k); simpl; auto. discriminate.
Qed.

End MapFacts.

(** ** Values *)

Lemma typeof_string (v : value) : typeof v = "string" <-> exists s, v = VStr s.
Proof.
  split.
  - destruct v as [| | | | s | c ps]; simpl; try discriminate.
    + intros _. now exists s.
    + destruct c; discriminate.
  - intros [s ->]. reflexivity.
Qed.

Lemma typeof_not_string (v : value) :
  (forall s, v <> VStr s) -> (typeof v =? "string")%string = false.
Proof.
  intros H. apply String.eqb_neq. intros E.
  apply typeof_string in E as [s ->]. now apply (H s).
Qed.

(** ** [getItem], [setItem], [removeItem] *)

Section Single.

Context {J : JSON}.

Lemma getItem_spec (name : value) (internal : MapObj.t) :
  getItem name internal =
  (Ok (if MapObj.has internal name then MapObj.get internal name else VNull), internal).
Proof.
  unfold getItem, bind, internal_has, internal_get, ret.
  now destruct (MapObj.has internal name).
Qed.

Lemma setItem_string (name : value) (s : string) (internal : MapObj.t) :
  setItem name (VStr s) internal = (Ok internal_ref, MapObj.set internal name (VStr s)).
Proof. reflexivity. Qed.

Lemma setItem_not_string (name v : value) (internal : MapObj.t) :
  (forall s, v <> VStr s) ->
  setItem name v internal =
  (Throw (Error "AsyncStorage requires strings to be stored"), internal).
Proof.
  intros H. unfold setItem. now rewrite (typeof_not_string v H).
Qed.

End Single.

(** ** The adapter *)

Lemma function_truthy (cb : value) : typeof cb = "function" -> truthy cb = true.
Proof. destruct cb; simpl; try discriminate. reflexivity. Qed.

(** A call whose last argument is a function: the function is taken off the
    arguments and called with the outcome. *)
Lemma wrapper_callback (fn : list value -> M value) (args : list value)
    (cb : value) (internal : MapObj.t) :
  typeof cb = "function" ->
  wrapper fn (args ++ [cb]) internal =
  match fn args internal with
  | (Ok v, internal') => (Called cb None v, internal')
  | (Throw e, internal') => (Called cb (Some e) VUndefined, internal')
  end.
Proof.
  intros H. unfold wrapper, forcedAsync.
  rewrite last_last, removelast_last, H. simpl.
  destruct (fn args internal) as [[v | e] internal'];
    now rewrite (function_truthy cb H).
Qed.

(** A call without a trailing function settles the promise. *)
Lemma wrapper_promise (fn : list value -> M value) (args : list value)
    (internal : MapObj.t) :
  typeof (last args VUndefined) <> "function" ->
  wrapper fn args internal =
  match fn args internal with
  | (Ok v, internal') => (Resolved v, internal')
  | (Throw e, internal') => (Rejected e, internal')
  end.
Proof.
  intros H. unfold wrapper, forcedAsync.
  apply String.eqb_neq in H. rewrite H.
  now destruct (fn args internal) as [[v | e] internal'].
Qed.

Lemma AsyncStorage_wrapped {J : JSON} (name : string)
    (f : list value -> MapObj.t -> settlement * MapObj.t) :
  In (name, f) AsyncStorage ->
  exists fn, In (name, fn) functions /\ f = wrapper fn.
Proof.
  intros H. table_cases H; eexists; (split; [|reflexivity]); simpl; tauto.
Qed.

(** C3. [setItem(k, v)] with [v] not a string throws the error
    "AsyncStorage requires strings to be stored" and leaves [internal] as it
    was, and the API call hands that error to its caller: to the callback
    when [v], the last argument, is a function, through the promise
    otherwise.  With a string [v] the call returns, [k] then holds [v]
    whatever it held before, and every other key holds what it held. *)
Theorem setItem_type_guard {J : JSON} (k : string) (v : value) (internal : MapObj.t) :
  ((forall s, v <> VStr s) ->
     setItem (VStr k) v internal =
       (Throw (Error "AsyncStorage requires strings to be stored"), internal) /\
     forall f, In ("setItem", f) AsyncStorage ->
       f [VStr k; v] internal =
       (if (typeof v =? "function")%string
        then Called v (Some (Error "AsyncStorage requires strings to be stored")) VUndefined
        else Rejected (Error "AsyncStorage requires strings to be stored"),
        internal)) /\
  (forall s, v = VStr s ->
     exists r internal',
       setItem (VStr k) v internal = (Ok r, internal') /\
       MapObj.has internal' (VStr k) = true /\
       MapObj.get internal' (VStr k) = VStr s /\
       forall k', k' <> k ->
         MapObj.has internal' (VStr k') = MapObj.has internal (VStr k') /\
         MapObj.get internal' (VStr k') = MapObj.get internal (VStr k')).
Proof.
  split.
  - intros Hv. split; [now apply setItem_not_string|].
    intros f Hf. apply AsyncStorage_wrapped in Hf as [fn [Hf ->]].
    table_cases Hf. destruct (String.eqb_spec (typeof v) "function") as [Hfn | Hfn].
    + change [VStr k; v] with ([VStr k] ++ [v]).
      rewrite wrapper_callback by assumption. reflexivity.
    + rewrite wrapper_promise by exact Hfn.
      unfold arg. cbn [nth]. now rewrite setItem_not_string.
  - intros s ->. exists internal_ref, (MapObj.set internal (VStr k) (VStr s)).
    assert (Hk : MapObj.same_value_zero (VStr k) (VStr k) = true)
      by apply String.eqb_refl.
    repeat split.
    + now apply has_set_same.
    + now apply get_set_same.
    + apply has_set_other. simpl. apply String.eqb_neq. congruence.
    + apply get_set_other. simpl. apply String.eqb_neq. congruence.
Qed.

Lemma setItem_type_guard_witness :
  setItem (VStr "foo") (VObj Plain []) [(VStr "foo", VStr "bar")] =
    (Throw (Error "AsyncStorage requires strings to be stored"),
     [(VStr "foo", VStr "bar")]) /\
  exists r internal',
    setItem (VStr "foo") (VStr "baz") [(VStr "foo", VStr "bar")] = (Ok r, internal') /\
    MapObj.get internal' (VStr "foo") = VStr "baz".
Proof.
  split.
  - apply (proj1 (setItem_type_guard (J := json) "foo" (VObj Plain [])
                    [(VStr "foo", VStr "bar")])).
    intros s H. discriminate H.
  - destruct (proj2 (setItem_type_guard (J := json) "foo" (VStr "baz")
                       [(VStr "foo", VStr "bar")])
                "baz" eq_refl) as (r & internal' & H1 & _ & H2 & _).
    exists r, internal'. split; assumption.
Defined.

(** C4. After [setItem(k, v)] with a string [v], which returns, [getItem(k)]
    returns [v]; [getItem(k)] returns [null] when [k] has no entry and after
    [removeItem(k)]; [getItem] always returns, and leaves [internal] as it
    was. *)
Theorem getItem_round_trip (k v : string) (internal : MapObj.t) :
  (exists r internal',
     setItem (VStr k) (VStr v) internal = (Ok r, internal') /\
     getItem (VStr k) internal' = (Ok (VStr v), internal')) /\
  (MapObj.has internal (VStr k) = false ->
     getItem (VStr k) internal = (Ok VNull, internal)) /\
  (exists r internal',
     removeItem (VStr k) internal = (Ok r, internal') /\
     getItem (VStr k) internal' = (Ok VNull, internal')) /\
  (exists r, getItem (VStr k) internal = (Ok r, internal)).
Proof.
  assert (Hk : MapObj.same_value_zero (VStr k) (VStr k) = true)
    by apply String.eqb_refl.
  repeat split.
  - exists internal_ref, (MapObj.set internal (VStr k) (VStr v)). split.
    + reflexivity.
    + rewrite getItem_spec, has_set_same, get_set_same by assumption. reflexivity.
  - intros H. now rewrite getItem_spec, H.
  - eexists _, (MapObj.delete internal (VStr k)). split.
    + reflexivity.
    + now rewrite getItem_spec, has_delete_same.
  - eexists. apply getItem_spec.
Qed.

Lemma getItem_round_trip_witness :
  MapObj.has [(VStr "what", VStr "doing")] (VStr "foo") = false /\
  getItem (VStr "foo") [(VStr "what", VStr "doing")] =
    (Ok VNull, [(VStr "what", VStr "doing")]).
Proof.
  split.
  - reflexivity.
  - apply (proj1 (proj2 (getItem_round_trip "foo" "bar" [(VStr "what", VStr "doing")]))).
    reflexivity.
Defined.

(** ** [mergeItem] on a key without entry *)

(** C10. When [k] has no entry, [mergeItem(k, v)] with a string [v] throws
    the SyntaxError of [JSON.parse(undefined)] and leaves [internal] as it
    was; the API call rejects its promise with that error, or hands it to the
    callback. *)
Theorem mergeItem_absent_key {J : JSON} (k v : string) (internal : MapObj.t) :
  MapObj.has internal (VStr k) = false ->
  mergeItem (VStr k) (VStr v) internal = (Throw SyntaxError, internal) /\
  forall f, In ("mergeItem", f) AsyncStorage ->
    f [VStr k; VStr v] internal = (Rejected SyntaxError, internal) /\
    forall cb, typeof cb = "function" ->
      f [VStr k; VStr v; cb] internal =
      (Called cb (Some SyntaxError) VUndefined, internal).
Proof.
  intros H.
  assert (E : mergeItem (VStr k) (VStr v) internal = (Throw SyntaxError, internal)).
  { unfold mergeItem, bind, internal_get, lift. simpl.
    now rewrite (get_absent _ _ H), JSON_parse_undefined. }
  split; [exact E|].
  intros f Hf. apply AsyncStorage_wrapped in Hf as [fn [Hf ->]].
  table_cases Hf. split.
  - rewrite wrapper_promise by (simpl; discriminate).
    unfold arg. cbn [nth]. now rewrite E.
  - intros cb Hcb.
    change [VStr k; VStr v; cb] with ([VStr k; VStr v] ++ [cb]).
    rewrite wrapper_callback by assumption.
    unfold arg. cbn [nth]. now rewrite E.
Qed.

Lemma mergeItem_absent_key_witness :
  MapObj.has [(VStr "foo", VStr "bar")] (VStr "json") = false /\
  mergeItem (VStr "json") (VStr "{}") [(VStr "foo", VStr "bar")] =
    (Throw SyntaxError, [(VStr "foo", VStr "bar")]).
Proof.
  split.
  - reflexivity.
  - apply (mergeItem_absent_key (J := json) "json" "{}" [(VStr "foo", VStr "bar")]).
    reflexivity.
Defined.

(** ** What the callback receives *)

(** [multiMerge] has no [return]: when it returns, it returns [undefined]. *)
Lemma multiMerge_returns_undefined {J : JSON} (pairs r : value)
    (internal internal' : MapObj.t) :
  multiMerge pairs internal = (Ok r, internal') -> r = VUndefined.
Proof.
  unfold multiMerge, Array_forEach.
  destruct pairs as [| | | | | c ps]; try (unfold throw; discriminate).
  destruct (holds_builtin (VObj c ps)); [unfold throw; discriminate|].
  destruct c; try (unfold throw; discriminate).
  unfold bind, ret.
  match goal with |- context [iterate ?f ?l internal] =>
    destruct (iterate f l internal) as [[ys | e] st] end.
  - intros H. now injection H as <- _.
  - discriminate.
Qed.




(** ** Arrays *)

Lemma array_index_index_key (n : N) :
  (n < max_length)%N -> array_index (index_key n) = Some n.
Proof.
  intros H. unfold array_index, index_key.
  rewrite NilEmpty.usu, Unsigned.of_to, String.eqb_refl.
  apply N.ltb_lt in H. unfold max_length in H. now rewrite H.
Qed.

Lemma elements_elements_from (l : list value) (i : N) :
  (i + N.of_nat (List.length l) <= max_length)%N ->
  elements (elements_from i l) = elements_from i l.
Proof.
  revert i. induction l as [|v l IH]; intros i H; [reflexivity|].
  cbn [elements_from List.length] in *. unfold elements in *. cbn [filter fst].
  rewrite array_index_index_key by (unfold max_length in *; lia).
  f_equal. apply IH. lia.
Qed.

Lemma map_snd_elements_from (l : list value) (i : N) :
  map snd (elements_from i l) = l.
Proof. revert i. induction l; intros i; simpl; [reflexivity | now rewrite IHl]. Qed.

Lemma combine_elements_from (l ys : list value) (i : N) :
  List.length ys = List.length l ->
  combine (map fst (elements_from i l)) ys = elements_from i ys.
Proof.
  revert ys i. induction l as [|v l IH]; intros [|y ys] i H; try discriminate; simpl.
  - reflexivity.
  - f_equal. apply IH. now injection H.
Qed.

Lemma iterate_length {A : Type} (f : value -> M A) (l : list value)
    (ys : list A) (internal internal' : MapObj.t) :
  iterate f l internal = (Ok ys, internal') -> List.length ys = List.length l.
Proof.
  revert ys internal. induction l as [|x l IH]; intros ys internal; simpl.
  - unfold ret. intros H. now injection H as <- _.
  - unfold bind at 1. destruct (f x internal) as [[y | e] st]; [|discriminate].
    unfold bind at 1. destruct (iterate f l st) as [[zs | e] st'] eqn:E; [|discriminate].
    unfold ret. intros H. injection H as <- <-. simpl. f_equal. eapply IH, E.
Qed.

(** No built-in name is written in digits. *)
Lemma reserved_not_digits (k : string) :
  reserved k = true -> NilEmpty.uint_of_string k = None.
Proof.
  unfold reserved. rewrite existsb_exists. intros [n [Hin E]].
  apply String.eqb_eq in E. subst n. revert k Hin. apply Forall_forall.
  unfold builtin_names. repeat (constructor; [reflexivity|]). constructor.
Qed.

Lemma reserved_index_key (n : N) : reserved (index_key n) = false.
Proof.
  destruct (reserved (index_key n)) eqn:E; [|reflexivity].
  apply reserved_not_digits in E. unfold index_key in E.
  rewrite NilEmpty.usu in E. discriminate E.
Qed.

Lemma holds_builtin_elements_from (l : list value) (i : N) :
  existsb (fun kv => reserved (fst kv)) (elements_from i l) = false.
Proof.
  revert i. induction l as [|v l IH]; intros i; [reflexivity|].
  cbn [elements_from existsb fst]. now rewrite reserved_index_key, IH.
Qed.

Lemma holds_builtin_array_of (l : list value) : holds_builtin (array_of l) = false.
Proof. apply holds_builtin_elements_from. Qed.

(** [map] over an array literal: the results, as an array literal. *)
Lemma Array_map_array_of (f : value -> M value) (l : list value)
    (internal : MapObj.t) :
  (N.of_nat (List.length l) <= max_length)%N ->
  Array_map (array_of l) f internal =
  match iterate f l internal with
  | (Ok ys, internal') => (Ok (array_of ys), internal')
  | (Throw e, internal') => (Throw e, internal')
  end.
Proof.
  intros H. unfold Array_map. rewrite holds_builtin_array_of. unfold array_of.
  rewrite elements_elements_from, map_snd_elements_from by lia.
  unfold bind. destruct (iterate f l internal) as [[ys | e] st] eqn:E; [|reflexivity].
  unfold ret. now rewrite (combine_elements_from l ys 0 (iterate_length _ _ _ _ _ E)).
Qed.

Lemma Array_forEach_array_of (f : value -> M value) (l : list value)
    (internal : MapObj.t) :
  (N.of_nat (List.length l) <= max_length)%N ->
  Array_forEach (array_of l) f internal =
  match iterate f l internal with
  | (Ok _, internal') => (Ok VUndefined, internal')
  | (Throw e, internal') => (Throw e, internal')
  end.
Proof.
  intros H. unfold Array_forEach. rewrite holds_builtin_array_of. unfold array_of.
  rewrite elements_elements_from, map_snd_elements_from by lia.
  unfold bind. now destruct (iterate f l internal) as [[ys | e] st].
Qed.

(** An iteration whose steps return without touching [internal]. *)
Lemma iterate_pure {A B : Type} (f : value -> M B) (g : A -> B) (h : A -> value)
    (l : list A) (internal : MapObj.t) :
  (forall x, f (h x) internal = (Ok (g x), internal)) ->
  iterate f (map h l) internal = (Ok (map g l), internal).
Proof.
  intros H. induction l as [|x l IH]; [reflexivity|].
  cbn [map iterate]. unfold bind at 1. rewrite H.
  unfold bind at 1. now rewrite IH.
Qed.

(** ** [multiGet] *)

(** C6. [multiGet] of the keys [ks] returns the array of the pairs
    [[k, v]], one per key and in the order of [ks], where [v] is what [k]
    holds or [null] when [k] has no entry; [internal] is as it was. *)
Theorem multiGet_pairs (ks : list string) (internal : MapObj.t) :
  (N.of_nat (List.length ks) <= max_length)%N ->
  multiGet (array_of (map VStr ks)) internal =
  (Ok (array_of
         (map (fun k =>
                 array_of [VStr k;
                           if MapObj.has internal (VStr k)
                           then MapObj.get internal (VStr k)
                           else VNull]) ks)),
   internal).
Proof.
  intros H. unfold multiGet.
  rewrite Array_map_array_of by now rewrite List.length_map.
  rewrite (iterate_pure _
             (fun k => array_of [VStr k;
                                 if MapObj.has internal (VStr k)
                                 then MapObj.get internal (VStr k)
                                 else VNull]) VStr).
  - reflexivity.
  - intros k. unfold bind, internal_has, internal_get, ret.
    now destruct (MapObj.has internal (VStr k)).
Qed.

Lemma multiGet_pairs_witness :
  multiGet (array_of [VStr "foo.1"; VStr "foo.2"; VStr "foo.3"; VStr "foo.4"])
    [(VStr "foo.1", VStr "1"); (VStr "foo.2", VStr "2"); (VStr "foo.4", VStr "4")] =
  (Ok (array_of [array_of [VStr "foo.1"; VStr "1"];
                 array_of [VStr "foo.2"; VStr "2"];
                 array_of [VStr "foo.3"; VNull];
                 array_of [VStr "foo.4"; VStr "4"]]),
   [(VStr "foo.1", VStr "1"); (VStr "foo.2", VStr "2"); (VStr "foo.4", VStr "4")]).
Proof.
  apply (multiGet_pairs ["foo.1"; "foo.2"; "foo.3"; "foo.4"]
           [(VStr "foo.1", VStr "1"); (VStr "foo.2", VStr "2"); (VStr "foo.4", VStr "4")]).
  vm_compute. discriminate.
Defined.

(** ** [multiRemove] *)

Lemma has_delete_str (m : MapObj.t) (k0 k : string) :
  MapObj.has (MapObj.delete m (VStr k0)) (VStr k) =
  negb (k =? k0)%string && MapObj.has m (VStr k).
Proof.
  destruct (String.eqb_spec k k0) as [-> | Hne]; simpl.
  - apply has_delete_same.
  - apply has_delete_other. simpl. apply String.eqb_neq. congruence.
Qed.

Lemma has_delete_all (ks : list string) (m : MapObj.t) (k : string) :
  MapObj.has (delete_all ks m) (VStr k) =
  MapObj.has m (VStr k) && negb (existsb (String.eqb k) ks).
Proof.
  revert m. induction ks as [|k0 ks IH]; intros m; simpl.
  - now rewrite andb_true_r.
  - unfold delete_all in *. simpl. rewrite IH, has_delete_str.
    destruct (k =? k0)%string, (MapObj.has m (VStr k)); reflexivity.
Qed.

Lemma get_delete_all (ks : list string) (m : MapObj.t) (k : string) :
  ~ In k ks -> MapObj.get (delete_all ks m) (VStr k) = MapObj.get m (VStr k).
Proof.
  revert m. induction ks as [|k0 ks IH]; intros m H; [reflexivity|].
  unfold delete_all in *. simpl. rewrite IH by (intros Hin; apply H; now right).
  apply get_delete_other. simpl. apply String.eqb_neq.
  intros ->. apply H. now left.
Qed.

(** The booleans [multiRemove] collects, and the map it leaves. *)
Lemma iterate_delete (ks : list string) (m : MapObj.t) :
  exists bs,
    iterate internal_delete (map VStr ks) m = (Ok (map VBool bs), delete_all ks m) /\
    List.length bs = List.length ks /\
    forall i k, nth_error ks i = Some k ->
      nth_error bs i =
      Some (MapObj.has m (VStr k) && negb (existsb (String.eqb k) (firstn i ks))).
Proof.
  revert m. induction ks as [|k0 ks IH]; intros m.
  - exists []. repeat split. intros [|i] k; discriminate.
  - destruct (IH (MapObj.delete m (VStr k0))) as (bs & E & Hlen & Hnth).
    exists (MapObj.has m (VStr k0) :: bs). repeat split.
    + cbn [map iterate]. unfold bind at 1, internal_delete at 1.
      unfold bind at 1. rewrite E. reflexivity.
    + simpl. now rewrite Hlen.
    + intros [|i] k H; simpl in *.
      * injection H as ->. now rewrite andb_true_r.
      * rewrite (Hnth i k H), has_delete_str.
        destruct (k =? k0)%string, (MapObj.has m (VStr k)); reflexivity.
Qed.

(** C7. [multiRemove] of the keys [ks] returns one boolean per key, in the
    order of [ks]: whether the key had an entry when its turn came, that is,
    it had one before the call and is not among the keys before it in [ks].
    After the call no key of [ks] has an entry, and [getItem] of it returns
    [null]. *)
Theorem multiRemove_flags (ks : list string) (internal : MapObj.t) :
  (N.of_nat (List.length ks) <= max_length)%N ->
  exists bs internal',
    multiRemove (array_of (map VStr ks)) internal =
      (Ok (array_of (map VBool bs)), internal') /\
    List.length bs = List.length ks /\
    (forall i k, nth_error ks i = Some k ->
       nth_error bs i = Some (MapObj.has (delete_all (firstn i ks) internal) (VStr k)) /\
       nth_error bs i =
       Some (MapObj.has internal (VStr k) && negb (existsb (String.eqb k) (firstn i ks)))) /\
    (forall k, In k ks ->
       MapObj.has internal' (VStr k) = false /\
       getItem (VStr k) internal' = (Ok VNull, internal')) /\
    (forall k, ~ In k ks ->
       MapObj.has internal' (VStr k) = MapObj.has internal (VStr k) /\
       MapObj.get internal' (VStr k) = MapObj.get internal (VStr k)).
Proof.
  intros H. destruct (iterate_delete ks internal) as (bs & E & Hlen & Hnth).
  exists bs, (delete_all ks internal). repeat split.
  - unfold multiRemove. rewrite Array_map_array_of by now rewrite List.length_map.
    now rewrite E.
  - exact Hlen.
  - rewrite has_delete_all. now apply Hnth.
  - now apply Hnth.
  - rewrite has_delete_all.
    replace (existsb (String.eqb k) ks) with true; [now rewrite andb_false_r|].
    symmetry. apply existsb_exists. exists k. split; [assumption | apply String.eqb_refl].
  - rewrite getItem_spec, has_delete_all.
    replace (existsb (String.eqb k) ks) with true; [now rewrite andb_false_r|].
    symmetry. apply existsb_exists. exists k. split; [assumption | apply String.eqb_refl].
  - rewrite has_delete_all.
    replace (existsb (String.eqb k) ks) with false; [now rewrite andb_true_r|].
    symmetry. apply not_true_is_false. intros Hex.
    apply existsb_exists in Hex as (k' & Hin & Heq).
    apply String.eqb_eq in Heq. subst k'. contradiction.
  - now apply get_delete_all.
Qed.

Lemma multiRemove_flags_witness :
  exists bs internal',
    multiRemove (array_of (map VStr ["a"; "b"; "c"; "a"]))
      [(VStr "a", VStr "1"); (VStr "c", VStr "3"); (VStr "d", VStr "4")] =
      (Ok (array_of (map VBool bs)), internal') /\
    nth_error bs 3 = Some false.
Proof.
  destruct (multiRemove_flags ["a"; "b"; "c"; "a"]
              [(VStr "a", VStr "1"); (VStr "c", VStr "3"); (VStr "d", VStr "4")])
    as (bs & internal' & E & _ & Hnth & _).
  - vm_compute. discriminate.
  - exists bs, internal'. split; [exact E|].
    exact (proj2 (Hnth 3%nat "a" eq_refl)).
Defined.

(** ** [multiSet] *)

Section Pairs.

(** The body of a [forEach] over pairs that stores the pair when its value
    is a string and throws [e] otherwise. *)
Variable body : value -> M value.
Variable e : exn.

Hypothesis body_string :
  forall k s m, body (pair_of (k, VStr s)) m = (Ok internal_ref, MapObj.set m (VStr k) (VStr s)).

Hypothesis body_other :
  forall k v m, (forall s, v <> VStr s) -> body (pair_of (k, v)) m = (Throw e, m).

Lemma iterate_set_all (l : list (string * value)) (m : MapObj.t) :
  Forall (fun kv => exists s, snd kv = VStr s) l ->
  exists ys, iterate body (map pair_of l) m = (Ok ys, set_all l m).
Proof.
  intros H. revert m. induction H as [|[k v] l [s Hs] _ IH]; intros m.
  - now exists [].
  - simpl in Hs. subst v. destruct (IH (MapObj.set m (VStr k) (VStr s))) as [ys E].
    exists (internal_ref :: ys). cbn [map iterate].
    unfold bind at 1. rewrite body_string. unfold bind at 1. now rewrite E.
Qed.

Lemma iterate_set_stop (pre post : list (string * value)) (k : string)
    (v : value) (m : MapObj.t) :
  Forall (fun kv => exists s, snd kv = VStr s) pre ->
  (forall s, v <> VStr s) ->
  iterate body (map pair_of (pre ++ (k, v) :: post)) m = (Throw e, set_all pre m).
Proof.
  intros H Hv. revert m. induction H as [|[k' v'] l [s Hs] _ IH]; intros m.
  - cbn [app map iterate]. unfold bind at 1. now rewrite body_other.
  - simpl in Hs. subst v'. cbn [app map iterate].
    unfold bind at 1. rewrite body_string. unfold bind at 1. now rewrite IH.
Qed.

End Pairs.

(** C8. [multiSet] stores the pairs in order.  When every value is a string
    it returns its argument and all pairs are stored.  When a value is not a
    string it throws "AsyncStorage requires strings to be stored", and
    [internal] is then what storing the pairs before the first such pair
    makes of it: that pair and the later ones are not stored. *)
Theorem multiSet_partial (l : list (string * value)) (internal : MapObj.t) :
  (N.of_nat (List.length l) <= max_length)%N ->
  (Forall (fun kv => exists s, snd kv = VStr s) l ->
     multiSet (array_of (map pair_of l)) internal =
     (Ok (array_of (map pair_of l)), set_all l internal)) /\
  (forall pre k v post,
     l = pre ++ (k, v) :: post ->
     Forall (fun kv => exists s, snd kv = VStr s) pre ->
     (forall s, v <> VStr s) ->
     multiSet (array_of (map pair_of l)) internal =
     (Throw (Error "AsyncStorage requires strings to be stored"),
      set_all pre internal)).
Proof.
  intros H. unfold multiSet.
  match goal with |- context [Array_forEach _ ?f] => set (body := f) end.
  assert (Hstr : forall k s m,
             body (pair_of (k, VStr s)) m =
             (Ok internal_ref, MapObj.set m (VStr k) (VStr s))) by reflexivity.
  assert (Hother : forall k v m, (forall s, v <> VStr s) ->
             body (pair_of (k, v)) m =
             (Throw (Error "AsyncStorage requires strings to be stored"), m)).
  { intros k v m Hv. unfold body, bind, lift, pair_of. simpl.
    now rewrite (typeof_not_string v Hv). }
  split.
  - intros Hall. unfold bind at 1.
    rewrite Array_forEach_array_of by now rewrite List.length_map.
    destruct (iterate_set_all body Hstr l internal Hall) as [ys E].
    now rewrite E.
  - intros pre k v post -> Hpre Hv. unfold bind at 1.
    rewrite Array_forEach_array_of by now rewrite List.length_map.
    now rewrite (iterate_set_stop body _ Hstr Hother pre post k v internal Hpre Hv).
Qed.

Lemma multiSet_partial_witness :
  multiSet
    (array_of (map pair_of
       [("bar.1", VStr "1"); ("bar.2", VObj Plain [("key", VStr "value")]);
        ("bar.3", VStr "3"); ("bar.4", VStr "4")]))
    [(VStr "bar.3", VStr "old")] =
  (Throw (Error "AsyncStorage requires strings to be stored"),
   [(VStr "bar.3", VStr "old"); (VStr "bar.1", VStr "1")]).
Proof.
  refine (proj2 (multiSet_partial
            [("bar.1", VStr "1"); ("bar.2", VObj Plain [("key", VStr "value")]);
             ("bar.3", VStr "3"); ("bar.4", VStr "4")]
            [(VStr "bar.3", VStr "old")] _)
          [("bar.1", VStr "1")] "bar.2" (VObj Plain [("key", VStr "value")])
          [("bar.3", VStr "3"); ("bar.4", VStr "4")] eq_refl _ _).
  - vm_compute. discriminate.
  - repeat constructor. now exists "1".
  - intros s Hs. discriminate Hs.
Defined.

(** ** Own properties *)

Lemma lookup_app (k : string) (ps qs : props) :
  lookup k (ps ++ qs) =
  match lookup k ps with
  | Some v => Some v
  | None => lookup k qs
  end.
Proof.
  induction ps as [|[k' v'] ps IH]; simpl; [reflexivity|].
  now destruct (k' =? k)%string.
Qed.

Lemma lookup_In (k : string) (v : value) (ps : props) :
  lookup k ps = Some v -> In (k, v) ps.
Proof.
  induction ps as [|[k' v'] ps IH]; simpl; [discriminate|].
  destruct (String.eqb_spec k' k) as [-> | _].
  - intros H. injection H as ->. now left.
  - intros H. right. now apply IH.
Qed.

Lemma lookup_None (k : string) (ps : props) :
  lookup k ps = None <-> ~ In k (map fst ps).
Proof.
  induction ps as [|[k' v'] ps IH]; simpl.
  - split; auto.
  - destruct (String.eqb_spec k' k) as [-> | Hne].
    + split; [discriminate | intros H; exfalso; apply H; now left].
    + rewrite IH. split; [intros H [E | Hin]; auto | intros H Hin; apply H; now right].
Qed.

Lemma lookup_NoDup (k : string) (v : value) (ps : props) :
  NoDup (map fst ps) -> In (k, v) ps -> lookup k ps = Some v.
Proof.
  induction ps as [|[k' v'] ps IH]; simpl; [contradiction|].
  intros Hnd [E | Hin].
  - injection E as -> ->. now rewrite String.eqb_refl.
  - inversion Hnd as [|? ? Hnotin Hnd']; subst.
    destruct (String.eqb_spec k' k) as [-> | _].
    + exfalso. apply Hnotin. change k with (fst (k, v)). now apply in_map.
    + now apply IH.
Qed.

(** With distinct keys, the last binding of a key is its only one. *)
Lemma lookup_rev (k : string) (ps : props) :
  NoDup (map fst ps) -> lookup k (rev ps) = lookup k ps.
Proof.
  induction ps as [|[k' v'] ps IH]; simpl; [reflexivity|].
  intros Hnd. inversion Hnd as [|? ? Hnotin Hnd']; subst.
  rewrite lookup_app, IH by assumption. simpl.
  destruct (String.eqb_spec k' k) as [-> | _].
  - apply lookup_None in Hnotin. now rewrite Hnotin.
  - now destruct (lookup k ps).
Qed.

Lemma lookup_update_same (k : string) (v : value) (ps : props) :
  has_key k ps = true -> lookup k (update k v ps) = Some v.
Proof.
  unfold has_key. induction ps as [|[k' v'] ps IH]; simpl; [discriminate|].
  destruct (k' =? k)%string eqn:E; simpl; rewrite E; auto.
Qed.

Lemma lookup_update_other (k k' : string) (v : value) (ps : props) :
  k' <> k -> lookup k' (update k v ps) = lookup k' ps.
Proof.
  intros Hne. induction ps as [|[k0 v0] ps IH]; simpl; [reflexivity|].
  destruct (String.eqb_spec k0 k) as [-> | _]; simpl.
  - assert (E : (k =? k')%string = false) by (apply String.eqb_neq; congruence).
    now rewrite E.
  - now rewrite IH.
Qed.

Lemma lookup_insert_index_same (n : N) (k : string) (v : value) (ps : props) :
  lookup k ps = None -> lookup k (insert_index n k v ps) = Some v.
Proof.
  induction ps as [|[k0 v0] ps IH]; simpl.
  - now rewrite String.eqb_refl.
  - destruct (String.eqb_spec k0 k) as [-> | Hne]; [discriminate|].
    intros H. destruct (array_index k0) as [m|].
    + destruct (n <? m)%N; simpl.
      * now rewrite String.eqb_refl.
      * apply String.eqb_neq in Hne. rewrite Hne. now apply IH.
    + simpl. now rewrite String.eqb_refl.
Qed.

Lemma lookup_insert_index_other (n : N) (k k' : string) (v : value) (ps : props) :
  k' <> k -> lookup k' (insert_index n k v ps) = lookup k' ps.
Proof.
  intros Hne. assert (E : (k =? k')%string = false) by (apply String.eqb_neq; congruence).
  induction ps as [|[k0 v0] ps IH]; simpl.
  - now rewrite E.
  - destruct (array_index k0) as [m|].
    + destruct (n <? m)%N; simpl.
      * now rewrite E.
      * now rewrite IH.
    + simpl. now rewrite E.
Qed.

Lemma lookup_put_same (k : string) (v : value) (ps : props) :
  lookup k (put k v ps) = Some v.
Proof.
  unfold put. destruct (has_key k ps) eqn:E.
  - now apply lookup_update_same.
  - assert (Hnone : lookup k ps = None).
    { unfold has_key in E. now destruct (lookup k ps). }
    destruct (array_index k).
    + now apply lookup_insert_index_same.
    + rewrite lookup_app, Hnone. simpl. now rewrite String.eqb_refl.
Qed.

Lemma lookup_put_other (k k' : string) (v : value) (ps : props) :
  k' <> k -> lookup k' (put k v ps) = lookup k' ps.
Proof.
  intros Hne. unfold put. destruct (has_key k ps).
  - now apply lookup_update_other.
  - destruct (array_index k).
    + now apply lookup_insert_index_other.
    + rewrite lookup_app. simpl.
      assert (E : (k =? k')%string = false) by (apply String.eqb_neq; congruence).
      rewrite E. now destruct (lookup k' ps).
Qed.

(** A write that returns leaves an object of the same class, holding the
    value at the key and what it held at the other keys. *)
Lemma set_prop_lookup (o o' : value) (k : string) (v : value) :
  set_prop o k v = Ok o' ->
  instanceof_Object o' = true /\
  forall k', lookup k' (own_props o') =
             if (k =? k')%string then Some v else lookup k' (own_props o).
Proof.
  destruct o as [| | | | | c ps]; try discriminate.
  assert (Hput : forall k', lookup k' (put k v ps) =
                            if (k =? k')%string then Some v else lookup k' ps).
  { intros k'. destruct (String.eqb_spec k k') as [<- | Hne].
    - apply lookup_put_same.
    - apply lookup_put_other. congruence. }
  unfold set_prop. destruct (reserved k); [discriminate|].
  destruct c; simpl;
    try (intros H; injection H as <-; split; [reflexivity | exact Hput]).
  destruct (has_key k (chars s)) eqn:E; [discriminate|].
  intros H. injection H as <-. split; [reflexivity|].
  intros k'. simpl. rewrite !lookup_app, Hput.
  destruct (String.eqb_spec k k') as [<- | Hne]; [|reflexivity].
  unfold has_key in E. now destruct (lookup k (chars s)).
Qed.

(** A write that returns is not under a built-in name. *)
Lemma set_prop_reserved (o o' : value) (k : string) (v : value) :
  set_prop o k v = Ok o' -> reserved k = false.
Proof.
  destruct o as [| | | | | c ps]; try discriminate.
  unfold set_prop. now destruct (reserved k).
Qed.

Lemma assign_props_reserved (ps : props) (o m : value) :
  assign_props o ps = Ok m -> Forall (fun kv => reserved (fst kv) = false) ps.
Proof.
  revert o. induction ps as [|[k0 v0] ps IH]; intros o; simpl; [constructor|].
  destruct (set_prop o k0 v0) as [o1 | e] eqn:E; [|discriminate]. simpl.
  intros H. constructor; [exact (set_prop_reserved _ _ _ _ E) | exact (IH _ H)].
Qed.

(** After [Object.assign]'s writes, a key holds the last value the source
    has for it, or what the target held when the source lacks it. *)
Lemma assign_props_lookup (ps : props) (o m : value) :
  assign_props o ps = Ok m ->
  forall k, lookup k (own_props m) =
            match lookup k (rev ps) with
            | Some v => Some v
            | None => lookup k (own_props o)
            end.
Proof.
  revert o. induction ps as [|[k0 v0] ps IH]; intros o; simpl.
  - intros H k. now injection H as <-.
  - destruct (set_prop o k0 v0) as [o1 | e] eqn:E; [|discriminate]. simpl.
    intros H k. rewrite (IH _ H k), lookup_app.
    destruct (lookup k (rev ps)); [reflexivity|]. simpl.
    apply set_prop_lookup in E as [_ E]. rewrite E. now destruct (k0 =? k)%string.
Qed.

Lemma assign_props_object (ps : props) (o m : value) :
  instanceof_Object o = true -> assign_props o ps = Ok m ->
  instanceof_Object m = true.
Proof.
  revert o. induction ps as [|[k0 v0] ps IH]; intros o Ho; simpl.
  - intros H. now injection H as <-.
  - destruct (set_prop o k0 v0) as [o1 | e] eqn:E; [|discriminate]. simpl.
    apply IH. now apply set_prop_lookup in E.
Qed.

Lemma get_prop_object (o : value) (k : string) :
  instanceof_Object o = true -> reserved k = false ->
  get_prop o k = Ok (match lookup k (own_props o) with
                     | Some v => v
                     | None => VUndefined
                     end).
Proof. destruct o; try discriminate. intros _ H. unfold get_prop. now rewrite H. Qed.

Lemma to_object_props (v o : value) :
  to_object v = Ok o ->
  instanceof_Object o = true /\ own_props o = own_props v.
Proof.
  destruct v as [| | b | n | s | c ps]; simpl; try discriminate;
    intros H; injection H as <-; split; try reflexivity.
  simpl. now rewrite app_nil_r.
Qed.

(** ** The deep merge *)

(** [merge] on an object: the [forEach], then the closing [Object.assign]. *)
Lemma merge_object (target : value) (c : kind) (ps : props) :
  merge target (VObj c ps) =
  (ps' <- merge_each target ps ;; merge_finish target (VObj c ps'))%result.
Proof.
  cbn [merge].
  match goal with |- rbind (?F ps) _ = _ =>
    assert (E : forall l, F l = merge_each target l) end.
  { induction l as [|[key d] l IH]; [reflexivity|].
    cbn [merge_each]. rewrite <- IH. reflexivity. }
  rewrite E. reflexivity.
Qed.

(** [merge] on a primitive: there is no object among its properties. *)
Lemma merge_primitive (target data : value) :
  instanceof_Object data = false ->
  merge target data = (_ <- Object_keys data ;; merge_finish target data)%result.
Proof. destruct data; try discriminate; reflexivity. Qed.

Lemma merge_each_properties (target : value) (ps ps' : props) :
  merge_each target ps = Ok ps' -> Forall2 (merged_property target) ps ps'.
Proof.
  revert ps'. induction ps as [|[key d] ps IH]; intros ps'; cbn [merge_each].
  - intros H. injection H as <-. constructor.
  - destruct (instanceof_Object d) eqn:Hd.
    + destruct (get_prop target key) as [t | e] eqn:Et; [|discriminate]. cbn [rbind].
      destruct (merge t d) as [[m d1] | e] eqn:Em; [|discriminate]. cbn [rbind].
      destruct (Object_assign d1 m) as [d2 | e] eqn:Ea; [|discriminate]. cbn [rbind].
      destruct (merge_each target ps) as [rest | e]; [|discriminate]. cbn [rbind].
      intros H. injection H as <-. constructor; [|now apply IH].
      split; [reflexivity|]. cbn [fst snd]. rewrite Hd. now exists t, m, d1.
    + destruct (merge_each target ps) as [rest | e]; [|discriminate]. cbn [rbind].
      intros H. injection H as <-. constructor; [|now apply IH].
      split; [reflexivity|]. cbn [fst snd]. now rewrite Hd.
Qed.

Lemma merged_keys (target : value) (ps ps' : props) :
  Forall2 (merged_property target) ps ps' -> map fst ps' = map fst ps.
Proof.
  induction 1 as [|p p' ps ps' [Hk _] _ IH]; [reflexivity|].
  simpl. now rewrite Hk, IH.
Qed.

Lemma merged_lookup (target : value) (ps ps' : props) (k : string) (v : value) :
  Forall2 (merged_property target) ps ps' ->
  lookup k ps = Some v ->
  exists v', lookup k ps' = Some v' /\ merged_property target (k, v) (k, v').
Proof.
  induction 1 as [|[k0 v0] [k0' v0'] ps ps' Hp _ IH]; simpl; [discriminate|].
  destruct Hp as [Hk Hp]. simpl in Hk. subst k0'.
  destruct (String.eqb_spec k0 k) as [-> | _].
  - intros H. injection H as ->. exists v0'. split; [reflexivity|]. now split.
  - exact IH.
Qed.

Lemma Object_assign_lookup (to from m : value) :
  Object_assign to from = Ok m -> nullish from = false ->
  instanceof_Object m = true /\
  forall k, lookup k (own_props m) =
            match lookup k (rev (own_props from)) with
            | Some v => Some v
            | None => lookup k (own_props to)
            end.
Proof.
  unfold Object_assign. destruct (to_object to) as [o | e] eqn:Eo; [|discriminate].
  apply to_object_props in Eo as [Ho Hp]. cbn [rbind]. intros H Hfrom.
  assert (Ha : assign_props o (own_props from) = Ok m)
    by (destruct from; try discriminate; exact H).
  split.
  - eapply assign_props_object; eassumption.
  - intros k. rewrite <- Hp. now apply assign_props_lookup.
Qed.

Lemma chars_primitive (s : string) (k : string) (v : value) :
  lookup k (chars s) = Some v -> instanceof_Object v = false.
Proof.
  intros H. apply lookup_In in H. unfold chars in H. revert H. generalize 0%N.
  induction s as [|a s IH]; simpl; [contradiction|].
  intros n [H | H]; [now injection H as _ <- | now apply (IH (N.succ n))].
Qed.

Lemma own_props_split (c : kind) (ps : props) :
  own_props (VObj c ps) = own_props (VObj c []) ++ ps.
Proof. destruct c; simpl; try reflexivity. now rewrite app_nil_r. Qed.

(** When [merge] returns, it has assigned to [target || {}] a value with
    the keys of [data] and, at each key, what the [forEach] made of the
    property. *)
Lemma merge_assigned (target data m d' : value) :
  merge target data = Ok (m, d') ->
  nullish d' = false /\
  Object_assign (if truthy target then target else VObj Plain []) d' = Ok m /\
  map fst (own_props d') = map fst (own_props data) /\
  forall k v, lookup k (own_props data) = Some v ->
    exists v', lookup k (own_props d') = Some v' /\ merged_property target (k, v) (k, v').
Proof.
  destruct (instanceof_Object data) eqn:Hd.
  - destruct data as [| | | | | c ps]; try discriminate.
    rewrite merge_object.
    destruct (merge_each target ps) as [ps' | e] eqn:E; [|discriminate]. cbn [rbind].
    apply merge_each_properties in E. unfold merge_finish.
    destruct (Object_assign _ _) as [r | e] eqn:Ea; [|discriminate]. cbn [rbind].
    intros H. injection H as <- <-. repeat split.
    + exact Ea.
    + rewrite (own_props_split c ps), (own_props_split c ps'), !map_app.
      now rewrite (merged_keys _ _ _ E).
    + intros k v. rewrite (own_props_split c ps), (own_props_split c ps'), !lookup_app.
      destruct (lookup k (own_props (VObj c []))) as [x|] eqn:Ex.
      * intros H. injection H as ->. exists v. split; [reflexivity|].
        split; [reflexivity|]. cbn [fst snd].
        destruct c; try discriminate. simpl in Ex. rewrite app_nil_r in Ex.
        now rewrite (chars_primitive _ _ _ Ex).
      * now apply merged_lookup.
  - rewrite merge_primitive by assumption.
    destruct (Object_keys data) as [ks | e] eqn:Ek; [|discriminate]. cbn [rbind].
    unfold merge_finish.
    destruct (Object_assign _ _) as [r | e] eqn:Ea; [|discriminate]. cbn [rbind].
    intros H. injection H as <- <-. repeat split.
    + destruct data; try discriminate; reflexivity.
    + exact Ea.
    + intros k v Hv. exists v. split; [assumption|]. split; [reflexivity|].
      cbn [fst snd]. destruct data; try discriminate; try (simpl in Hv; discriminate).
      simpl in Hv. now rewrite (chars_primitive _ _ _ Hv).
Qed.

(** The properties of the value [merge] returns: those of [data] as the
    [forEach] left them, over those of [target || {}]. *)
Lemma merge_result_lookup (target data m d' : value) :
  NoDup (map fst (own_props data)) ->
  merge target data = Ok (m, d') ->
  instanceof_Object m = true /\
  forall k, lookup k (own_props m) =
            match lookup k (own_props d') with
            | Some v => Some v
            | None => lookup k (own_props (if truthy target then target else VObj Plain []))
            end.
Proof.
  intros Hnd H. apply merge_assigned in H as (Hnull & Ha & Hkeys & _).
  apply Object_assign_lookup in Ha as [Hm Hl]; [|assumption].
  split; [assumption|]. intros k. rewrite Hl, lookup_rev; [reflexivity|].
  now rewrite Hkeys.
Qed.

Lemma holds_builtin_false (v : value) :
  holds_builtin v = false <-> Forall (fun kv => reserved (fst kv) = false) (own_props v).
Proof.
  unfold holds_builtin. generalize (own_props v) as ps.
  induction ps as [|[k x] ps IH]; simpl.
  - split; [constructor | reflexivity].
  - rewrite orb_false_iff, IH. split.
    + intros [H1 H2]. now constructor.
    + intros H. inversion H; subst. now split.
Qed.

Lemma Object_assign_reserved (to from m : value) :
  Object_assign to from = Ok m -> nullish from = false -> holds_builtin from = false.
Proof.
  unfold Object_assign. destruct (to_object to) as [o | e]; [|discriminate].
  cbn [rbind]. intros H Hfrom. apply holds_builtin_false.
  apply (assign_props_reserved _ o m). destruct from; try discriminate; exact H.
Qed.

(** A merge that returns has met no built-in name among the keys of
    [data]. *)
Lemma merge_returns_keys (target data m d' : value) :
  merge target data = Ok (m, d') ->
  forall k v, lookup k (own_props data) = Some v -> reserved k = false.
Proof.
  intros H k v Hk. apply merge_assigned in H as (Hnull & Ha & Hkeys & _).
  apply Object_assign_reserved in Ha; [|assumption].
  apply holds_builtin_false in Ha.
  assert (Hin : In k (map fst (own_props d'))).
  { rewrite Hkeys. apply lookup_In in Hk. now apply (in_map fst) in Hk. }
  apply in_map_iff in Hin as ([k0 v0] & Ek & Hin). simpl in Ek. subst k0.
  exact (proj1 (Forall_forall _ _) Ha (k, v0) Hin).
Qed.

Lemma merge_each_flat (target : value) (ps : props) :
  Forall (fun kv => instanceof_Object (snd kv) = false) ps ->
  merge_each target ps = Ok ps.
Proof.
  induction 1 as [|[k v] ps Hv _ IH]; [reflexivity|].
  simpl in Hv. cbn [merge_each]. now rewrite Hv, IH.
Qed.

Lemma assign_props_returns (ps : props) (o : value) :
  instanceof_Object o = true -> string_like o = false ->
  Forall (fun kv => reserved (fst kv) = false) ps ->
  exists m, assign_props o ps = Ok m.
Proof.
  revert o. induction ps as [|[k v] ps IH]; intros o Ho Hs Hps.
  - now exists o.
  - inversion Hps as [|? ? Hk Hps']; subst. simpl in Hk.
    destruct o as [| | | | | c qs]; try discriminate.
    cbn [assign_props]. unfold set_prop. rewrite Hk.
    destruct c; try discriminate; cbn [rbind]; now apply IH.
Qed.

Lemma Object_assign_returns (to from : value) :
  nullish to = false -> string_like to = false -> holds_builtin from = false ->
  exists m, Object_assign to from = Ok m.
Proof.
  intros Hn Hs Hr. apply holds_builtin_false in Hr. unfold Object_assign.
  assert (Ho : exists o, to_object to = Ok o /\
                         instanceof_Object o = true /\ string_like o = false).
  { destruct to as [| | b | n | s | c ps]; try discriminate; simpl; eauto. }
  destruct Ho as (o & -> & Ho & Hso). cbn [rbind].
  destruct from; try (now exists o); now apply assign_props_returns.
Qed.

(** [merge] returns when [data] holds no object and no built-in name, and
    [target] is not a string. *)
Lemma merge_flat_returns (target data : value) :
  flat data -> nullish data = false -> string_like target = false ->
  holds_builtin data = false ->
  exists m, merge target data = Ok (m, data).
Proof.
  intros Hflat Hnull Hs Hr.
  assert (Hfin : exists m, merge_finish target data = Ok (m, data)).
  { unfold merge_finish.
    destruct (Object_assign_returns (if truthy target then target else VObj Plain []) data)
      as [m Hm].
    - destruct (truthy target) eqn:Et; [|reflexivity].
      destruct target; try discriminate; reflexivity.
    - destruct (truthy target); [assumption | reflexivity].
    - assumption.
    - exists m. now rewrite Hm. }
  destruct (instanceof_Object data) eqn:Hd.
  - destruct data as [| | | | | c ps]; try discriminate.
    rewrite merge_object, merge_each_flat; [exact Hfin|].
    unfold flat in Hflat. rewrite own_props_split in Hflat.
    now apply Forall_app in Hflat.
  - rewrite merge_primitive by assumption.
    destruct data; try discriminate; exact Hfin.
Qed.

(** ** Arrays under [Object.assign] *)

Lemma index_key_inj (a b : N) : index_key a = index_key b -> a = b.
Proof.
  unfold index_key. intros H.
  apply (f_equal NilEmpty.uint_of_string) in H. rewrite !NilEmpty.usu in H.
  injection H as H. apply (f_equal N.of_uint) in H.
  now rewrite !Unsigned.of_to in H.
Qed.

Lemma elements_from_app (a b : list value) (i : N) :
  elements_from i (a ++ b) =
  elements_from i a ++ elements_from (i + N.of_nat (List.length a)) b.
Proof.
  revert i. induction a as [|x a IH]; intros i; simpl.
  - now rewrite N.add_0_r.
  - rewrite IH. do 3 f_equal. lia.
Qed.

Lemma lookup_elements_from_outside (l : list value) (a i : N) :
  (i < a \/ a + N.of_nat (List.length l) <= i)%N ->
  lookup (index_key i) (elements_from a l) = None.
Proof.
  revert a. induction l as [|x l IH]; intros a H; [reflexivity|].
  cbn [elements_from lookup List.length] in *.
  destruct (String.eqb_spec (index_key a) (index_key i)) as [E | _].
  - apply index_key_inj in E. lia.
  - apply IH. lia.
Qed.

Lemma elements_from_indices (l : list value) (a : N) :
  (a + N.of_nat (List.length l) <= max_length)%N ->
  Forall (fun kv => exists j, array_index (fst kv) = Some j /\
                              (j < a + N.of_nat (List.length l))%N)
         (elements_from a l).
Proof.
  revert a. induction l as [|x l IH]; intros a H; [constructor|].
  cbn [elements_from List.length] in *. constructor.
  - exists a. split; [apply array_index_index_key | ]; lia.
  - eapply Forall_impl; [|apply (IH (N.succ a)); lia].
    intros kv (j & Hj & Hlt). exists j. split; [assumption | lia].
Qed.

Lemma update_middle (k : string) (t v : value) (E R : props) :
  lookup k E = None ->
  has_key k (E ++ (k, t) :: R) = true /\
  update k v (E ++ (k, t) :: R) = E ++ (k, v) :: R.
Proof.
  intros H. split.
  - unfold has_key. rewrite lookup_app, H. simpl. now rewrite String.eqb_refl.
  - induction E as [|[k0 v0] E IH]; simpl in *.
    + now rewrite String.eqb_refl.
    + destruct (k0 =? k)%string; [discriminate|]. now rewrite IH.
Qed.

Lemma insert_index_last (i : N) (k : string) (v : value) (E : props) :
  Forall (fun kv => exists j, array_index (fst kv) = Some j /\ (j < i)%N) E ->
  insert_index i k v E = E ++ [(k, v)].
Proof.
  induction 1 as [|[k0 v0] E (j & Hj & Hlt) _ IH]; [reflexivity|].
  simpl in *. rewrite Hj.
  assert (Hge : (i <? j)%N = false) by (apply N.ltb_ge; lia).
  now rewrite Hge, IH.
Qed.

(** Writing the elements [xs] from index [i] on, over an array that holds
    [done] below [i] and [ts] from [i] on. *)
Lemma assign_elements_from (xs done ts : list value) :
  (N.of_nat (List.length done) + N.of_nat (List.length xs) <= max_length)%N ->
  assign_props
    (VObj Arr (elements_from 0 done ++ elements_from (N.of_nat (List.length done)) ts))
    (elements_from (N.of_nat (List.length done)) xs) =
  Ok (VObj Arr (elements_from 0 done ++
                elements_from (N.of_nat (List.length done))
                  (xs ++ skipn (List.length xs) ts))).
Proof.
  revert done ts. induction xs as [|x xs IH]; intros done ts H; [reflexivity|].
  set (i := N.of_nat (List.length done)) in *.
  cbn [elements_from assign_props List.length] in *.
  unfold set_prop. rewrite reserved_index_key. cbn [rbind].
  assert (Hnone : lookup (index_key i) (elements_from 0 done) = None)
    by (apply lookup_elements_from_outside; lia).
  assert (Hput : put (index_key i) x (elements_from 0 done ++ elements_from i ts) =
                 elements_from 0 (done ++ [x]) ++ elements_from (N.succ i) (tl ts)).
  { rewrite elements_from_app. cbn [elements_from]. rewrite <- app_assoc. cbn [app].
    rewrite N.add_0_l. fold i. unfold put. destruct ts as [|t ts].
    - cbn [elements_from tl]. rewrite !app_nil_r.
      unfold has_key. rewrite Hnone.
      rewrite array_index_index_key by (unfold max_length in *; lia).
      apply insert_index_last.
      eapply Forall_impl; [|apply (elements_from_indices done 0); lia].
      intros kv (j & Hj & Hlt). exists j. split; [assumption | lia].
    - cbn [elements_from tl].
      destruct (update_middle (index_key i) t x (elements_from 0 done)
                  (elements_from (N.succ i) ts) Hnone) as [-> ->].
      reflexivity. }
  rewrite Hput.
  assert (Hi : N.succ i = N.of_nat (List.length (done ++ [x])))
    by (rewrite List.length_app; simpl; lia).
  rewrite Hi, IH by (rewrite <- Hi; lia).
  rewrite <- Hi, elements_from_app. cbn [elements_from]. rewrite <- app_assoc. cbn [app].
  rewrite N.add_0_l. fold i. do 4 f_equal.
  destruct ts; [now rewrite skipn_nil | reflexivity].
Qed.

(** [Object.assign] of an array to an array: the source's elements, then
    the target's elements beyond the length of the source. *)
Lemma Object_assign_arrays (ts xs : list value) :
  (N.of_nat (List.length xs) <= max_length)%N ->
  Object_assign (array_of ts) (array_of xs) =
  Ok (array_of (xs ++ skipn (List.length xs) ts)).
Proof.
  intros H. unfold Object_assign, array_of. cbn [to_object rbind own_props].
  exact (assign_elements_from xs [] ts H).
Qed.

Lemma elements_from_flat (xs : list value) (i : N) :
  Forall (fun x => instanceof_Object x = false) xs ->
  Forall (fun kv => instanceof_Object (snd kv) = false) (elements_from i xs).
Proof.
  intros H. revert i. induction H as [|x xs Hx _ IH]; intros i; simpl;
    constructor; auto.
Qed.

(** [merge] of an array of primitives into an array. *)
Lemma merge_arrays (ts xs : list value) :
  Forall (fun x => instanceof_Object x = false) xs ->
  (N.of_nat (List.length xs) <= max_length)%N ->
  merge (array_of ts) (array_of xs) =
  Ok (array_of (xs ++ skipn (List.length xs) ts), array_of xs).
Proof.
  intros Hflat H. unfold array_of at 2. rewrite merge_object.
  rewrite merge_each_flat by now apply elements_from_flat.
  cbn [rbind]. unfold merge_finish. cbn [truthy array_of].
  fold (array_of ts). fold (array_of xs).
  now rewrite Object_assign_arrays.
Qed.

(** ** The deep merge within the model

    On values none of whose keys is a built-in name, [merge] never leaves
    the model: what it returns is such a value again, and what it throws is
    a TypeError. *)

Lemma ordinary_object (c : kind) (ps : props) :
  ordinary (VObj c ps) = true <-> ordinary_props ps.
Proof.
  unfold ordinary_props. cbn [ordinary].
  induction ps as [|[k x] ps IH].
  - split; [constructor | reflexivity].
  - rewrite !andb_true_iff, negb_true_iff, IH. cbn [fst snd]. split.
    + intros [[H1 H2] H3]. now constructor.
    + intros H. inversion H as [|? ? [H1 H2] H3]; subst. now repeat split.
Qed.

Lemma ordinary_chars (s : string) : ordinary_props (chars s).
Proof.
  unfold chars. generalize 0%N. induction s as [|a s IH]; intros i; [constructor|].
  constructor; [|apply IH]. split; [apply reserved_index_key | reflexivity].
Qed.

Lemma ordinary_own_props (v : value) : ordinary v = true -> ordinary_props (own_props v).
Proof.
  destruct v as [| | b | n | s | c ps]; try (intros _; constructor).
  - intros _. apply ordinary_chars.
  - intros H. apply ordinary_object in H.
    destruct c; try exact H. apply Forall_app. split; [apply ordinary_chars | exact H].
Qed.

Lemma ordinary_holds_builtin (v : value) : ordinary v = true -> holds_builtin v = false.
Proof.
  intros H. apply holds_builtin_false.
  eapply Forall_impl; [|exact (ordinary_own_props v H)]. now intros kv [Hk _].
Qed.

Lemma ordinary_lookup (ps : props) (k : string) (x : value) :
  ordinary_props ps -> lookup k ps = Some x -> ordinary x = true.
Proof.
  intros H Hk. apply lookup_In in Hk.
  exact (proj2 (proj1 (Forall_forall _ _) H (k, x) Hk)).
Qed.

Lemma get_prop_ordinary (target t : value) (k : string) :
  ordinary target = true -> get_prop target k = Ok t -> ordinary t = true.
Proof.
  intros Ho. unfold get_prop.
  destruct target as [| | b | n | s | c ps] eqn:E; try discriminate;
    (destruct (reserved k); [discriminate|]); rewrite <- E in *;
    (destruct (lookup k (own_props target)) as [x|] eqn:Ex;
     intros H; injection H as <-; [|reflexivity]);
    exact (ordinary_lookup _ _ _ (ordinary_own_props _ Ho) Ex).
Qed.

Lemma get_prop_throws (target : value) (k : string) (e : exn) :
  reserved k = false -> get_prop target k = Throw e -> e = TypeError.
Proof.
  intros Hk. unfold get_prop. rewrite Hk.
  destruct target; try discriminate; intros H; now injection H as <-.
Qed.

Lemma ordinary_update (k : string) (v : value) (ps : props) :
  ordinary_props ps -> ordinary v = true -> ordinary_props (update k v ps).
Proof.
  intros H Hv. induction H as [|[k0 v0] ps [H1 H2] Hps IH]; [constructor|].
  simpl. destruct (k0 =? k)%string; (constructor; [split; auto | auto]).
Qed.

Lemma ordinary_insert_index (n : N) (k : string) (v : value) (ps : props) :
  ordinary_props ps -> reserved k = false -> ordinary v = true ->
  ordinary_props (insert_index n k v ps).
Proof.
  intros H Hk Hv. induction H as [|[k0 v0] ps Hp Hps IH].
  - constructor; [now split | constructor].
  - simpl. destruct (array_index k0) as [j|].
    + destruct (n <? j)%N.
      * constructor; [now split | now constructor].
      * now constructor.
    + constructor; [now split | now constructor].
Qed.

Lemma ordinary_put (k : string) (v : value) (ps : props) :
  ordinary_props ps -> reserved k = false -> ordinary v = true ->
  ordinary_props (put k v ps).
Proof.
  intros H Hk Hv. unfold put. destruct (has_key k ps).
  - now apply ordinary_update.
  - destruct (array_index k).
    + now apply ordinary_insert_index.
    + apply Forall_app. split; [exact H | constructor; [now split | constructor]].
Qed.

Lemma set_prop_ordinary (o o' : value) (k : string) (v : value) :
  ordinary o = true -> ordinary v = true -> set_prop o k v = Ok o' ->
  ordinary o' = true.
Proof.
  intros Ho Hv H. pose proof (set_prop_reserved _ _ _ _ H) as Hk.
  destruct o as [| | | | | c ps]; try discriminate.
  apply ordinary_object in Ho. unfold set_prop in H. rewrite Hk in H.
  destruct c; try (destruct (has_key k (chars s)); [discriminate|]);
    injection H as <-; apply ordinary_object; now apply ordinary_put.
Qed.

Lemma set_prop_throws (o : value) (k : string) (v : value) (e : exn) :
  reserved k = false -> set_prop o k v = Throw e -> e = TypeError.
Proof.
  intros Hk. unfold set_prop. rewrite Hk.
  destruct o as [| | | | | c ps]; try (intros H; now injection H as <-).
  destruct c; try discriminate.
  destruct (has_key k (chars s)); [|discriminate]. intros H. now injection H as <-.
Qed.

Lemma assign_props_ordinary (ps : props) (o : value) :
  ordinary o = true -> ordinary_props ps ->
  (forall m, assign_props o ps = Ok m -> ordinary m = true) /\
  (forall e, assign_props o ps = Throw e -> e = TypeError).
Proof.
  intros Ho Hps. revert o Ho.
  induction Hps as [|[k v] ps [Hk Hv] _ IH]; intros o Ho; cbn [assign_props].
  - split; [intros m H; now injection H as <- | discriminate].
  - cbn [fst snd] in *. destruct (set_prop o k v) as [o1 | e1] eqn:E; cbn [rbind].
    + apply IH. exact (set_prop_ordinary _ _ _ _ Ho Hv E).
    + split; [discriminate|]. intros e H. injection H as <-.
      exact (set_prop_throws _ _ _ _ Hk E).
Qed.

Lemma Object_assign_ordinary (to from : value) :
  ordinary to = true -> ordinary from = true ->
  (forall m, Object_assign to from = Ok m -> ordinary m = true) /\
  (forall e, Object_assign to from = Throw e -> e = TypeError).
Proof.
  intros Hto Hfrom. unfold Object_assign.
  destruct (to_object to) as [o | e0] eqn:Eo; cbn [rbind].
  - assert (Ho : ordinary o = true).
    { destruct to; simpl in Eo; try discriminate; injection Eo as <-;
        first [reflexivity | assumption]. }
    pose proof (assign_props_ordinary _ o Ho (ordinary_own_props _ Hfrom)) as Ha.
    destruct from; try exact Ha;
      (split; [intros m H; now injection H as <- | discriminate]).
  - split; [discriminate|]. intros e H. injection H as <-.
    destruct to; simpl in Eo; try discriminate; now injection Eo as <-.
Qed.

Lemma target_or_object_ordinary (target : value) :
  ordinary target = true ->
  ordinary (if truthy target then target else VObj Plain []) = true.
Proof. intros H. now destruct (truthy target). Qed.

Lemma merge_finish_ordinary (target data : value) :
  ordinary target = true -> ordinary data = true ->
  (forall m d', merge_finish target data = Ok (m, d') ->
     ordinary m = true /\ ordinary d' = true) /\
  (forall e, merge_finish target data = Throw e -> e = TypeError).
Proof.
  intros Ht Hd. unfold merge_finish.
  destruct (Object_assign_ordinary _ data (target_or_object_ordinary _ Ht) Hd) as [Hok Hthrow].
  destruct (Object_assign _ _) as [r | e0]; cbn [rbind].
  - split; [|discriminate]. intros m d' H. injection H as <- <-. split; auto.
  - split; [discriminate|]. intros e H. injection H as <-. auto.
Qed.

Lemma merge_ordinary (data target : value) :
  ordinary target = true -> ordinary data = true ->
  (forall m d', merge target data = Ok (m, d') ->
     ordinary m = true /\ ordinary d' = true) /\
  (forall e, merge target data = Throw e -> e = TypeError).
Proof.
  revert target.
  induction data as [| | b | n | s | c ps IH] using value_ind; intros target Ht Hd;
    try (rewrite merge_primitive by reflexivity; cbn [Object_keys rbind];
         first [ split; [discriminate | intros e H; now injection H as <-]
               | now apply merge_finish_ordinary ]).
  rewrite merge_object. apply ordinary_object in Hd.
  assert (Heach : (forall ps', merge_each target ps = Ok ps' -> ordinary_props ps') /\
                  (forall e, merge_each target ps = Throw e -> e = TypeError)).
  { clear c. induction IH as [|[k d] ps Hd0 _ IHps]; cbn [merge_each].
    - split; [intros ps' H; injection H as <-; constructor | discriminate].
    - inversion Hd as [|? ? [Hk Hdo] Hps]; subst. cbn [fst snd] in *.
      specialize (IHps Hps). destruct IHps as [IHok IHthrow].
      destruct (instanceof_Object d).
      + destruct (get_prop target k) as [t | e0] eqn:Et; cbn [rbind].
        * pose proof (get_prop_ordinary _ _ _ Ht Et) as Hto.
          destruct (Hd0 t Hto Hdo) as [Hmok Hmthrow].
          destruct (merge t d) as [[m d1] | e0]; cbn [rbind].
          -- destruct (Hmok m d1 eq_refl) as [Hm Hd1].
             destruct (Object_assign_ordinary d1 m Hd1 Hm) as [Haok Hathrow].
             destruct (Object_assign d1 m) as [d2 | e0]; cbn [rbind].
             ++ destruct (merge_each target ps) as [rest | e0]; cbn [rbind].
                ** split; [|discriminate]. intros ps' H. injection H as <-.
                   constructor; [split; [exact Hk | exact (Haok d2 eq_refl)]|].
                   exact (IHok rest eq_refl).
                ** split; [discriminate|]. intros e H. injection H as <-. auto.
             ++ split; [discriminate|]. intros e H. injection H as <-. auto.
          -- split; [discriminate|]. intros e H. injection H as <-. auto.
        * split; [discriminate|]. intros e H. injection H as <-.
          exact (get_prop_throws _ _ _ Hk Et).
      + destruct (merge_each target ps) as [rest | e0]; cbn [rbind].
        * split; [|discriminate]. intros ps' H. injection H as <-.
          constructor; [split; [exact Hk | exact Hdo]|].
          exact (IHok rest eq_refl).
        * split; [discriminate|]. intros e H. injection H as <-. auto. }
  destruct Heach as [Hok Hthrow].
  destruct (merge_each target ps) as [ps' | e0]; cbn [rbind].
  - apply merge_finish_ordinary; [assumption|]. apply ordinary_object. auto.
  - split; [discriminate|]. intros e H. injection H as <-. auto.
Qed.

(** Everything [merge] throws on such values is a TypeError. *)
Lemma merge_throws (data target : value) (e : exn) :
  ordinary target = true -> ordinary data = true ->
  merge target data = Throw e -> e = TypeError.
Proof. intros Ht Hd. now apply merge_ordinary. Qed.

(** Where [target] has nothing at a key, and [data] has there an object
    that itself holds an object, [merge] throws: the recursive call reads
    [target[key]] of [undefined]. *)
Lemma merge_absent_nested_throws (target data d d2 : value) (k j : string) :
  ordinary target = true -> ordinary data = true ->
  lookup k (own_props data) = Some d ->
  lookup j (own_props d) = Some d2 ->
  instanceof_Object d = true ->
  instanceof_Object d2 = true ->
  get_prop target k = Ok VUndefined ->
  merge target data = Throw TypeError.
Proof.
  intros Hto Hdo Hk Hj Hd Hd2 Ht.
  destruct (merge target data) as [[m d'] | e] eqn:E.
  - exfalso. apply merge_assigned in E as (_ & _ & _ & Hp).
    destruct (Hp k d Hk) as (v' & _ & _ & H). cbn [fst snd] in H.
    rewrite Hd in H. destruct H as (t & m1 & d1 & Ht' & Hm1 & _).
    rewrite Ht in Ht'. injection Ht' as <-.
    apply merge_assigned in Hm1 as (_ & _ & _ & Hp1).
    destruct (Hp1 j d2 Hj) as (v2 & _ & _ & H). cbn [fst snd] in H.
    rewrite Hd2 in H. destruct H as (t2 & _ & _ & Habs & _). discriminate Habs.
  - f_equal. now apply (merge_throws data target).
Qed.

(** ** The deep merge, key by key *)




(** A key that [data] lacks holds in the result what it holds in
    [target || {}]. *)
Lemma merge_keeps_target_keys (target data m d' : value) (k : string) :
  NoDup (map fst (own_props data)) ->
  lookup k (own_props data) = None ->
  merge target data = Ok (m, d') ->
  lookup k (own_props m) =
  lookup k (own_props (if truthy target then target else VObj Plain [])).
Proof.
  intros Hnd Hk H. destruct (merge_result_lookup _ _ _ _ Hnd H) as [_ Hl].
  apply merge_assigned in H as (_ & _ & Hkeys & _).
  rewrite Hl. apply lookup_None in Hk. rewrite <- Hkeys in Hk.
  apply lookup_None in Hk. now rewrite Hk.
Qed.

(** ** The deep merge on the cases of the test suite and of the specification *)

Example merge_previous_value :
  merge (object_of [("foo", VStr "bar")]) (object_of [("another", VStr "value")]) =
  Ok (object_of [("foo", VStr "bar"); ("another", VStr "value")],
      object_of [("another", VStr "value")]).
Proof. reflexivity. Qed.

Example merge_deep_precedence :
  merge (object_of [("foo", VStr "bar"); ("deep", object_of [("foo", VStr "bar")])])
        (object_of [("deep", object_of [("foo", VStr "value")])]) =
  Ok (object_of [("foo", VStr "bar"); ("deep", object_of [("foo", VStr "value")])],
      object_of [("deep", object_of [("foo", VStr "value")])]).
Proof. reflexivity. Qed.

Example merge_same_shape :
  merge (object_of [("a", VNum 1)]) (object_of [("a", VNum 1)]) =
  Ok (object_of [("a", VNum 1)], object_of [("a", VNum 1)]).
Proof. reflexivity. Qed.

Example merge_one_level_absent :
  merge (object_of [("foo", VStr "bar"); ("deep", object_of [("baz", VStr "boat")])])
        (object_of [("added", VBool true);
                    ("deep", object_of [("ly", VStr "added"); ("baz", VStr "overriden")]);
                    ("must", object_of [("go", VStr "deeper")])]) =
  Ok (object_of [("foo", VStr "bar");
                 ("deep", object_of [("ly", VStr "added"); ("baz", VStr "overriden")]);
                 ("added", VBool true);
                 ("must", object_of [("go", VStr "deeper")])],
      object_of [("added", VBool true);
                 ("deep", object_of [("ly", VStr "added"); ("baz", VStr "overriden")]);
                 ("must", object_of [("go", VStr "deeper")])]).
Proof. reflexivity. Qed.

(** A string in [target] is not an empty object to merge into: its
    characters come along. *)
Example merge_string_target :
  merge (object_of [("a", VStr "xy")]) (object_of [("a", object_of [("b", VNum 1)])]) =
  Ok (object_of [("a", object_of [("0", VStr "x"); ("1", VStr "y"); ("b", VNum 1)])],
      object_of [("a", object_of [("0", VStr "x"); ("1", VStr "y"); ("b", VNum 1)])]).
Proof. reflexivity. Qed.

(** The test "can deep merge values", through the API functions. *)
(** At a built-in name: the [length] of an array is not set to [-1], the
    [length] of a String object is not written, and a write to [__proto__]
    is where the model ends. *)
Example mergeItem_invalid_length :
  mergeItem (VStr "k") (JSON_stringify (object_of [("a", array_of [VNum 1])]))
    [(VStr "k", JSON_stringify (object_of [("a", object_of [("length", VNum (-1))])]))] =
  (Throw RangeError,
   [(VStr "k", JSON_stringify (object_of [("a", object_of [("length", VNum (-1))])]))]).
Proof. reflexivity. Qed.

Example merge_string_length :
  merge (VStr "abc") (VObj Plain [("length", VNum 5)]) = Throw TypeError.
Proof. reflexivity. Qed.

Example merge_proto :
  merge (object_of []) (VObj Plain [("__proto__", VNum 5)]) = Throw Unmodelled.
Proof. reflexivity. Qed.

Example mergeItem_deep :
  (setItem (VStr "deep")
     (JSON_stringify
        (object_of [("foo", VStr "bar"); ("deep", object_of [("foo", VStr "bar")])])) ;;;
   mergeItem (VStr "deep")
     (JSON_stringify (object_of [("deep", object_of [("foo", VStr "value")])])) ;;;
   stored <- getItem (VStr "deep") ;;
   lift (JSON_parse stored))%store [] =
  (Ok (object_of [("foo", VStr "bar"); ("deep", object_of [("foo", VStr "value")])]),
   [(VStr "deep",
     JSON_stringify
       (object_of [("foo", VStr "bar"); ("deep", object_of [("foo", VStr "value")])]))]).
Proof. reflexivity. Qed.

(** The test "returns all keys that are set". *)
Example getAllKeys_insertion_order :
  (clear ;;;
   setItem (VStr "key") (VStr "value") ;;;
   setItem (VStr "key2") (VStr "value") ;;;
   setItem (VStr "key3") (VStr "value") ;;;
   setItem (VStr "key4") (VStr "value") ;;;
   setItem (VStr "foo") (VStr "bar") ;;;
   setItem (VStr "key2") (VStr "again") ;;;
   getAllKeys)%store [(VStr "old", VStr "entry")] =
  (Ok (array_of [VStr "key"; VStr "key2"; VStr "key3"; VStr "key4"; VStr "foo"]),
   [(VStr "key", VStr "value"); (VStr "key2", VStr "again"); (VStr "key3", VStr "value");
    (VStr "key4", VStr "value"); (VStr "foo", VStr "bar")]).
Proof. reflexivity. Qed.

(** The test "merges multiple JSON values deeply", on its first pair. *)
Example multiMerge_deep :
  (multiSet
     (array_of
        [array_of [VStr "json.1";
                   JSON_stringify
                     (object_of [("foo", VStr "bar");
                                 ("deep", object_of [("baz", VStr "boat")])])]]) ;;;
   multiMerge
     (array_of
        [array_of [VStr "json.1";
                   JSON_stringify
                     (object_of [("added", VBool true);
                                 ("deep", object_of [("ly", VStr "added");
                                                     ("baz", VStr "overriden")]);
                                 ("must", object_of [("go", VStr "deeper")])])]]) ;;;
   stored <- getItem (VStr "json.1") ;;
   lift (JSON_parse stored))%store [] =
  (Ok (object_of [("foo", VStr "bar");
                  ("deep", object_of [("ly", VStr "added"); ("baz", VStr "overriden")]);
                  ("added", VBool true);
                  ("must", object_of [("go", VStr "deeper")])]),
   [(VStr "json.1",
     JSON_stringify
       (object_of [("foo", VStr "bar");
                   ("deep", object_of [("ly", VStr "added"); ("baz", VStr "overriden")]);
                   ("added", VBool true);
                   ("must", object_of [("go", VStr "deeper")])]))]).
Proof. reflexivity. Qed.

(** The test "is an async operation" calls [setItem] with a callback: the
    callback receives [null] and the [Map] that [internal.set] returns. *)
Example setItem_with_callback :
  wrapper (fun args => setItem (arg 0 args) (arg 1 args))
    [VStr "async-op"; VStr "stored as last"; VObj (Fn "next") []] [] =
  (Called (VObj (Fn "next") []) None internal_ref,
   [(VStr "async-op", VStr "stored as last")]).
Proof. reflexivity. Qed.

(** C5, where the code departs from it.  [json] holds [{foo: 'bar'}];
    merging [{must: {go: {deeper: true}}}] into it throws a TypeError and
    stores nothing, where C5 lets the missing [must] count as an empty
    object and the result be [{foo: 'bar', must: {go: {deeper: true}}}]. *)
Theorem mergeItem_nested_absent_throws :
  let old := object_of [("foo", VStr "bar")] in
  let new := object_of [("must", object_of [("go", object_of [("deeper", VBool true)])])] in
  let internal := [(VStr "json", JSON_stringify old)] in
  JSON_parse (JSON_stringify old) = Ok old /\
  JSON_parse (JSON_stringify new) = Ok new /\
  merge old new = Throw TypeError /\
  mergeItem (VStr "json") (JSON_stringify new) internal = (Throw TypeError, internal).
Proof. repeat split. Qed.

(** * Further properties of the functions *)

(** ** [removeItem], [clear], [getAllKeys] *)

Lemma delete_absent (m : MapObj.t) (k : value) :
  MapObj.has m k = false -> MapObj.delete m k = m.
Proof.
  induction m as [|[k' v'] m IH]; simpl; [reflexivity|].
  destruct (MapObj.same_value_zero k' k); simpl; [discriminate|].
  intros H. now rewrite IH.
Qed.

Lemma keys_set (m : MapObj.t) (k v : value) :
  MapObj.keys (MapObj.set m k v) =
  if MapObj.has m k then MapObj.keys m else MapObj.keys m ++ [k].
Proof.
  unfold MapObj.keys. induction m as [|[k' v'] m IH]; simpl; [reflexivity|].
  destruct (MapObj.same_value_zero k' k); simpl; [reflexivity|].
  rewrite IH. now destruct (MapObj.has m k).
Qed.

Lemma keys_delete (m : MapObj.t) (k : value) :
  MapObj.keys (MapObj.delete m k) =
  filter (fun k' => negb (MapObj.same_value_zero k' k)) (MapObj.keys m).
Proof.
  unfold MapObj.keys, MapObj.delete.
  induction m as [|[k' v'] m IH]; simpl; [reflexivity|].
  destruct (MapObj.same_value_zero k' k); simpl; now rewrite IH.
Qed.

Lemma has_keys (m : MapObj.t) (k : string) :
  MapObj.has m (VStr k) = false -> ~ In (VStr k) (MapObj.keys m).
Proof.
  unfold MapObj.keys. induction m as [|[k' v'] m IH]; simpl; [tauto|].
  destruct (MapObj.same_value_zero k' (VStr k)) eqn:E; simpl; [discriminate|].
  intros H [Hk | Hin]; [|now apply IH].
  subst k'. simpl in E. now rewrite String.eqb_refl in E.
Qed.

(** X1. [removeItem(k)] never throws: it returns whether [k] had an entry,
    leaves [k] without entry and every other key as it was, keeps the order
    of the remaining keys, and changes nothing at all when [k] had no
    entry. *)
Theorem removeItem_effect (k : string) (internal : MapObj.t) :
  exists internal',
    removeItem (VStr k) internal =
      (Ok (VBool (MapObj.has internal (VStr k))), internal') /\
    MapObj.has internal' (VStr k) = false /\
    (forall k', k' <> k ->
       MapObj.has internal' (VStr k') = MapObj.has internal (VStr k') /\
       MapObj.get internal' (VStr k') = MapObj.get internal (VStr k')) /\
    MapObj.keys internal' =
      filter (fun k' => negb (MapObj.same_value_zero k' (VStr k))) (MapObj.keys internal) /\
    (MapObj.has internal (VStr k) = false -> internal' = internal).
Proof.
  exists (MapObj.delete internal (VStr k)). repeat split.
  - apply has_delete_same.
  - apply has_delete_other. simpl. apply String.eqb_neq. congruence.
  - apply get_delete_other. simpl. apply String.eqb_neq. congruence.
  - apply keys_delete.
  - apply delete_absent.
Qed.

Lemma removeItem_effect_witness :
  removeItem (VStr "this was never added") [(VStr "what", VStr "doing")] =
  (Ok (VBool false), [(VStr "what", VStr "doing")]).
Proof.
  destruct (removeItem_effect "this was never added" [(VStr "what", VStr "doing")])
    as (internal' & E & _ & _ & _ & H).
  rewrite (H eq_refl) in E. exact E.
Defined.

(** X2. After [clear()], whatever [internal] held, [getAllKeys] returns the
    empty array, [getItem] returns [null] for every key and [multiGet]
    pairs every key with [null]; [clear] itself returns [undefined]. *)
Theorem clear_empties (internal : MapObj.t) (ks : list string) :
  (N.of_nat (List.length ks) <= max_length)%N ->
  clear internal = (Ok VUndefined, []) /\
  (clear ;;; getAllKeys)%store internal = (Ok (array_of []), []) /\
  (forall name, (clear ;;; getItem name)%store internal = (Ok VNull, [])) /\
  (clear ;;; multiGet (array_of (map VStr ks)))%store internal =
    (Ok (array_of (map (fun k => array_of [VStr k; VNull]) ks)), []).
Proof.
  intros H. repeat split.
  unfold bind, clear, internal_clear, MapObj.clear, multiGet.
  rewrite Array_map_array_of by now rewrite List.length_map.
  now rewrite (iterate_pure _ (fun k => array_of [VStr k; VNull]) VStr).
Qed.

Lemma clear_empties_witness :
  (clear ;;; multiGet (array_of (map VStr ["clear.1"; "deep"])))%store
    [(VStr "clear.1", VStr "1"); (VStr "deep", VStr "{}")] =
  (Ok (array_of [array_of [VStr "clear.1"; VNull]; array_of [VStr "deep"; VNull]]), []).
Proof.
  apply (clear_empties [(VStr "clear.1", VStr "1"); (VStr "deep", VStr "{}")]
           ["clear.1"; "deep"]).
  vm_compute. discriminate.
Defined.

(** X3. [getAllKeys] lists the keys in the order of their first insertion:
    after [setItem(k, v)] with a string [v], the list is the one before,
    with [k] added at the end when it had no entry and as it was when it
    had one; no key is listed twice if none was before. *)
Theorem getAllKeys_order (k v : string) (internal : MapObj.t) :
  exists internal',
    (setItem (VStr k) (VStr v) ;;; getAllKeys)%store internal =
      (Ok (array_of (MapObj.keys internal')), internal') /\
    MapObj.keys internal' =
      (if MapObj.has internal (VStr k) then MapObj.keys internal
       else MapObj.keys internal ++ [VStr k]) /\
    (NoDup (MapObj.keys internal) -> NoDup (MapObj.keys internal')).
Proof.
  exists (MapObj.set internal (VStr k) (VStr v)). repeat split.
  - apply keys_set.
  - intros Hnd. rewrite keys_set.
    destruct (MapObj.has internal (VStr k)) eqn:E; [assumption|].
    apply NoDup_app; [assumption | repeat constructor; simpl; tauto |].
    intros x Hx [<- | []]. revert Hx. now apply has_keys.
Qed.

Lemma getAllKeys_order_witness :
  NoDup (MapObj.keys (MapObj.set [(VStr "key", VStr "value")] (VStr "foo") (VStr "bar"))).
Proof.
  destruct (getAllKeys_order "foo" "bar" [(VStr "key", VStr "value")])
    as (internal' & E & _ & H).
  injection E as E. subst internal'.
  apply H. repeat constructor; simpl; tauto.
Defined.

(** ** The adapter, both ways of calling *)

(** What [wrapper] does to [internal] is what the function does to it, with
    the arguments the function receives. *)
Lemma wrapper_internal (fn : list value -> M value) (args : list value)
    (internal : MapObj.t) :
  exists args', snd (wrapper fn args internal) = snd (fn args' internal).
Proof.
  unfold wrapper, forcedAsync.
  destruct (typeof (last args VUndefined) =? "function")%string.
  - exists (removelast args).
    destruct (fn (removelast args) internal) as [[v | e] st];
      destruct (truthy (last args VUndefined)); reflexivity.
  - exists args. destruct (fn args internal) as [[v | e] st]; reflexivity.
Qed.



(** ** The operations that only read *)

Lemma iterate_reads {A : Type} (f : value -> M A) (l : list value) (internal : MapObj.t) :
  (forall x, snd (f x internal) = internal) ->
  snd (iterate f l internal) = internal.
Proof.
  intros H. induction l as [|x l IH]; [reflexivity|].
  cbn [iterate]. unfold bind at 1. specialize (H x).
  destruct (f x internal) as [[y | e] st]; simpl in H; subst st; [|reflexivity].
  unfold bind at 1. destruct (iterate f l internal) as [[ys | e] st];
    simpl in IH; subst st; reflexivity.
Qed.

Lemma multiGet_reads (names : value) (internal : MapObj.t) :
  snd (multiGet names internal) = internal.
Proof.
  unfold multiGet, Array_map.
  destruct names as [| | | | | c ps]; try reflexivity.
  destruct (holds_builtin (VObj c ps)); [reflexivity|].
  destruct c; try reflexivity.
  unfold bind at 1.
  match goal with |- context [iterate ?f ?l internal] =>
    pose proof (iterate_reads f l internal) as H;
    destruct (iterate f l internal) as [[ys | e] st] end;
    simpl in *; apply H; intros x; unfold bind, internal_has, internal_get, ret;
    now destruct (MapObj.has internal x).
Qed.



(** ** The operations on arrays, called without an array *)

(** X6. [multiGet], [multiSet], [multiMerge] and [multiRemove] called with
    a value that is not an object ([undefined], [null], a boolean, a number
    or a string), or with no argument at all, reject with a TypeError and
    leave [internal] as it was. *)
Theorem batch_needs_array {J : JSON} (name : string)
    (f : list value -> MapObj.t -> settlement * MapObj.t)
    (a : value) (internal : MapObj.t) :
  In (name, f) AsyncStorage -> In name batch ->
  instanceof_Object a = false ->
  f [] internal = (Rejected TypeError, internal) /\
  f [a] internal = (Rejected TypeError, internal).
Proof.
  intros Hf Hb Ha. apply AsyncStorage_wrapped in Hf as [fn [Hf ->]].
  assert (Hthrow : forall g : value -> M value,
             Array_map a g internal = (Throw TypeError, internal) /\
             Array_forEach a g internal = (Throw TypeError, internal)).
  { intros g. destruct a; try discriminate Ha; split; reflexivity. }
  assert (Hfn : typeof a <> "function") by (destruct a; discriminate).
  table_cases Hf; simpl in Hb; try (exfalso; intuition discriminate);
    (split; [reflexivity|]);
    rewrite wrapper_promise by exact Hfn; unfold arg; cbn [nth].
  - unfold multiGet. now rewrite (proj1 (Hthrow _)).
  - unfold multiSet, bind. now rewrite (proj2 (Hthrow _)).
  - unfold multiMerge. now rewrite (proj2 (Hthrow _)).
  - unfold multiRemove. now rewrite (proj1 (Hthrow _)).
Qed.

Lemma batch_needs_array_witness :
  wrapper (fun args => multiRemove (arg 0 args)) [VStr "remove.1"]
    [(VStr "remove.1", VStr "1")] =
  (Rejected TypeError, [(VStr "remove.1", VStr "1")]).
Proof.
  refine (proj2 (batch_needs_array (J := json) "multiRemove" _ (VStr "remove.1")
                   [(VStr "remove.1", VStr "1")] _ _ _)).
  - unfold AsyncStorage. simpl. do 7 right. left. reflexivity.
  - simpl. tauto.
  - reflexivity.
Defined.

(** ** The instance [json] never yields a function *)

Section JsonFacts.

Import Json.

Lemma parse_members_typeof (fuel : nat) (acc : props) (s : string)
    (v : value) (r : string) :
  parse_members fuel acc s = Some (v, r) -> typeof v = "object".
Proof.
  revert acc s. induction fuel as [|fuel IH]; intros acc s; [discriminate|].
  cbn [parse_members]. intros H.
  repeat match type of H with
         | context [match ?x with _ => _ end] => destruct x eqn:?; try discriminate H
         end.
  - eapply IH, H.
  - now injection H as <- _.
Qed.

Lemma parse_elements_typeof (fuel : nat) (acc : list value) (s : string)
    (v : value) (r : string) :
  parse_elements fuel acc s = Some (v, r) -> typeof v = "object".
Proof.
  revert acc s. induction fuel as [|fuel IH]; intros acc s; [discriminate|].
  cbn [parse_elements]. intros H.
  repeat match type of H with
         | context [match ?x with _ => _ end] => destruct x eqn:?; try discriminate H
         end.
  - eapply IH, H.
  - now injection H as <- _.
Qed.

Lemma parse_value_typeof (fuel : nat) (s : string) (v : value) (r : string) :
  parse_value fuel s = Some (v, r) -> typeof v <> "function".
Proof.
  destruct fuel as [|fuel]; [discriminate|].
  cbn [parse_value]. unfold option_map. intros H.
  repeat match type of H with
         | context [match ?x with _ => _ end] => destruct x eqn:?; try discriminate H
         end;
    try (injection H as <- _; discriminate);
    try (apply parse_members_typeof in H; rewrite H; discriminate);
    try (apply parse_elements_typeof in H; rewrite H; discriminate).
Qed.

Lemma parse_typeof (v r : value) : parse v = Ok r -> typeof r <> "function".
Proof.
  unfold parse, parse_text.
  destruct (parse_value _ _) as [[r' rest]|] eqn:E; [|discriminate].
  destruct (skip rest); [|discriminate].
  intros H. injection H as <-. eapply parse_value_typeof, E.
Qed.

Lemma to_json_typeof (v : value) :
  instanceof_Object v = true -> typeof v <> "function" ->
  typeof (to_json v) = "string".
Proof.
  destruct v as [| | | | | c ps]; try discriminate.
  intros _ H. destruct c; try reflexivity. now destruct H.
Qed.

End JsonFacts.

(** ** [mergeItem] and [multiMerge] *)

(** X7. [mergeItem(k, v)] throws and leaves [internal] as it was, or
    returns: then [v] is a string, the value [k] held and [v] both parse,
    [merge] of the two returns [m], and [k] now holds [JSON.stringify(m)]
    while every other key holds what it held. *)
Theorem mergeItem_all_or_nothing {J : JSON} (k : string) (v : value)
    (internal : MapObj.t) :
  (exists e, mergeItem (VStr k) v internal = (Throw e, internal)) \/
  (exists s old new m d,
     v = VStr s /\
     JSON_parse (MapObj.get internal (VStr k)) = Ok old /\
     JSON_parse v = Ok new /\
     merge old new = Ok (m, d) /\
     mergeItem (VStr k) v internal =
       (Ok internal_ref, MapObj.set internal (VStr k) (JSON_stringify m)) /\
     MapObj.get (MapObj.set internal (VStr k) (JSON_stringify m)) (VStr k) =
       JSON_stringify m /\
     forall k', k' <> k ->
       MapObj.get (MapObj.set internal (VStr k) (JSON_stringify m)) (VStr k') =
       MapObj.get internal (VStr k')).
Proof.
  unfold mergeItem.
  destruct (typeof v =? "string")%string eqn:Ev; cbn [negb];
    [|left; now eexists].
  apply String.eqb_eq, typeof_string in Ev as [s ->].
  unfold bind, internal_get, lift, internal_set.
  destruct (JSON_parse (MapObj.get internal (VStr k))) as [old | e] eqn:Eo;
    [|left; now eexists].
  destruct (JSON_parse (VStr s)) as [new | e] eqn:En; [|left; now eexists].
  destruct (merge old new) as [[m d] | e] eqn:Em; [|left; now eexists].
  right. exists s, old, new, m, d. repeat split.
  - assumption.
  - apply get_set_same. apply String.eqb_refl.
  - intros k' Hne. apply get_set_other. simpl. apply String.eqb_neq. congruence.
Qed.

(** The body of the [forEach] of [multiMerge], on a pair whose value is a
    string, is [mergeItem]. *)
Lemma iterate_mergeItem {J : JSON} (body : value -> M value) (e : exn) :
  (forall k s m, body (pair_of (k, VStr s)) m = mergeItem (VStr k) (VStr s) m) ->
  (forall k v m, (forall s, v <> VStr s) -> body (pair_of (k, v)) m = (Throw e, m)) ->
  (forall l m,
     Forall (fun kv => exists s, snd kv = VStr s) l ->
     (iterate body (map pair_of l) ;;; ret VUndefined)%store m = mergeItem_each l m) /\
  (forall pre k v post m,
     Forall (fun kv => exists s, snd kv = VStr s) pre ->
     (forall s, v <> VStr s) ->
     (iterate body (map pair_of (pre ++ (k, v) :: post)) ;;; ret VUndefined)%store m =
     (mergeItem_each pre ;;; throw e)%store m).
Proof.
  intros Hstr Hother.
  assert (Hcons : forall (x : value) (l : list value) (c : M value) (m : MapObj.t),
             (forall m', (iterate body l ;;; ret VUndefined)%store m' = c m') ->
             (iterate body (x :: l) ;;; ret VUndefined)%store m = (body x ;;; c)%store m).
  { intros x l c m H. cbn [iterate]. unfold bind in *.
    destruct (body x m) as [[y | e'] st]; [|reflexivity].
    rewrite <- H. now destruct (iterate body l st) as [[ys | e'] st']. }
  split.
  - intros l m H. revert m. induction H as [|[k v] l [s Hs] _ IH]; intros m; [reflexivity|].
    simpl in Hs. subst v. cbn [map mergeItem_each fst snd].
    rewrite (Hcons _ _ (mergeItem_each l)) by exact IH.
    unfold bind. now rewrite Hstr.
  - intros pre k v post m H Hv. revert m.
    induction H as [|[k' v'] l [s Hs] _ IH]; intros m.
    + cbn [app map mergeItem_each]. cbn [iterate]. unfold bind, ret, throw.
      now rewrite Hother.
    + simpl in Hs. subst v'. cbn [app map mergeItem_each fst snd].
      rewrite (Hcons _ _ (mergeItem_each l ;;; throw e)%store) by exact IH.
      unfold bind. rewrite Hstr.
      now destruct (mergeItem (VStr k') (VStr s) m) as [[y | e'] st].
Qed.

(** X8. [multiMerge] on pairs whose values are strings is [mergeItem] on
    each pair in turn, up to the first that throws, and returns [undefined];
    at a pair whose value is not a string it throws "AsyncStorage requires
    strings to be merged", the pairs before it having been merged. *)
Theorem multiMerge_sequence {J : JSON} (l : list (string * value)) (internal : MapObj.t) :
  (N.of_nat (List.length l) <= max_length)%N ->
  (Forall (fun kv => exists s, snd kv = VStr s) l ->
     multiMerge (array_of (map pair_of l)) internal = mergeItem_each l internal) /\
  (forall pre k v post,
     l = pre ++ (k, v) :: post ->
     Forall (fun kv => exists s, snd kv = VStr s) pre ->
     (forall s, v <> VStr s) ->
     multiMerge (array_of (map pair_of l)) internal =
     (mergeItem_each pre ;;;
      throw (Error "AsyncStorage requires strings to be merged"))%store internal).
Proof.
  intros H. unfold multiMerge.
  match goal with |- context [Array_forEach _ ?f] => set (body := f) end.
  assert (Hforeach : forall l' : list (string * value),
             List.length l' = List.length l ->
             Array_forEach (array_of (map pair_of l')) body internal =
             (iterate body (map pair_of l') ;;; ret VUndefined)%store internal).
  { intros l' Hlen. rewrite Array_forEach_array_of
      by (rewrite List.length_map, Hlen; exact H).
    unfold bind, ret. now destruct (iterate body (map pair_of l') internal) as [[ys | e] st]. }
  destruct (iterate_mergeItem body (Error "AsyncStorage requires strings to be merged"))
    as [Hall Hstop].
  - reflexivity.
  - intros k v m Hv. unfold body, bind, lift, pair_of. simpl.
    now rewrite (typeof_not_string v Hv).
  - split.
    + intros Hl. rewrite Hforeach by reflexivity. now apply Hall.
    + intros pre k v post -> Hpre Hv. rewrite Hforeach by reflexivity.
      now apply Hstop.
Qed.

Lemma multiMerge_sequence_witness :
  multiMerge
    (array_of (map pair_of
       [("json.1", JSON_stringify (object_of [("added", VBool true)]));
        ("json.2", VNum 2)]))
    [(VStr "json.1", JSON_stringify (object_of [("foo", VStr "bar")]))] =
  (Throw (Error "AsyncStorage requires strings to be merged"),
   [(VStr "json.1",
     JSON_stringify (object_of [("foo", VStr "bar"); ("added", VBool true)]))]).
Proof.
  assert (Hb : (N.of_nat (List.length
                  [("json.1", JSON_stringify (object_of [("added", VBool true)]));
                   ("json.2", VNum 2)]) <= max_length)%N)
    by (simpl; unfold max_length; lia).
  rewrite (proj2 (multiMerge_sequence (J := json)
             [("json.1", JSON_stringify (object_of [("added", VBool true)]));
              ("json.2", VNum 2)]
             [(VStr "json.1", JSON_stringify (object_of [("foo", VStr "bar")]))] Hb)
           [("json.1", JSON_stringify (object_of [("added", VBool true)]))]
           "json.2" (VNum 2) [] eq_refl).
  - reflexivity.
  - repeat constructor. now eexists.
  - intros s Hs. discriminate Hs.
Defined.

(** ** Only strings are stored *)

Lemma strings_only_set (m : MapObj.t) (k v : value) :
  strings_only m -> typeof v = "string" -> strings_only (MapObj.set m k v).
Proof.
  unfold strings_only. intros H Hv. induction H as [|[k' v'] m Hk Hm IH]; simpl.
  - now repeat constructor.
  - destruct (MapObj.same_value_zero k' k); constructor; auto.
Qed.

Lemma strings_only_delete (m : MapObj.t) (k : value) :
  strings_only m -> strings_only (MapObj.delete m k).
Proof.
  unfold strings_only, MapObj.delete. intros H. apply Forall_forall.
  intros e He. apply filter_In in He as [He _]. revert e He. now apply Forall_forall.
Qed.

Lemma set_prop_typeof (o o' : value) (k : string) (v : value) :
  set_prop o k v = Ok o' -> typeof o' = typeof o.
Proof.
  destruct o as [| | | | | c ps]; try discriminate.
  unfold set_prop. destruct (reserved k); [discriminate|].
  destruct c; simpl; try (intros H; now injection H as <-).
  destruct (has_key k (chars s)); [discriminate|]. intros H. now injection H as <-.
Qed.

Lemma assign_props_typeof (ps : props) (o m : value) :
  assign_props o ps = Ok m -> typeof m = typeof o.
Proof.
  revert o. induction ps as [|[k v] ps IH]; intros o; simpl.
  - intros H. now injection H as <-.
  - destruct (set_prop o k v) as [o' | e] eqn:E; [|discriminate]. cbn [rbind].
    intros H. rewrite (IH _ H). now apply set_prop_typeof in E.
Qed.

Lemma Object_assign_typeof (to from m : value) :
  Object_assign to from = Ok m -> typeof to <> "function" ->
  instanceof_Object m = true /\ typeof m <> "function".
Proof.
  unfold Object_assign. destruct (to_object to) as [o | e] eqn:Eo; [|discriminate].
  cbn [rbind]. intros H Hto.
  assert (Ho : instanceof_Object o = true /\ typeof o <> "function").
  { destruct to; simpl in Eo; try discriminate; injection Eo as <-;
      split; try reflexivity; try discriminate; assumption. }
  assert (Hm : typeof m = typeof o /\ instanceof_Object m = true).
  { destruct from; try (injection H as <-; split; [reflexivity | apply Ho]);
      (split; [eapply assign_props_typeof, H
              | eapply assign_props_object; [apply Ho | exact H]]). }
  destruct Hm as [Hm1 Hm2]. split; [assumption|]. rewrite Hm1. apply Ho.
Qed.

(** The value [merge] returns is an object, and a function only if
    [target] is one. *)
Lemma merge_typeof (target data m d' : value) :
  merge target data = Ok (m, d') -> typeof target <> "function" ->
  instanceof_Object m = true /\ typeof m <> "function".
Proof.
  intros H Ht. apply merge_assigned in H as (_ & Ha & _).
  apply Object_assign_typeof in Ha; [assumption|].
  destruct (truthy target); [assumption | discriminate].
Qed.

Lemma iterate_keeps {A : Type} (P : MapObj.t -> Prop) (f : value -> M A) :
  (forall x m, P m -> P (snd (f x m))) ->
  forall l m, P m -> P (snd (iterate f l m)).
Proof.
  intros Hf. induction l as [|x l IH]; intros m Hm; [assumption|].
  cbn [iterate]. unfold bind at 1. specialize (Hf x m Hm).
  destruct (f x m) as [[y | e] st]; simpl in Hf; [|assumption].
  unfold bind at 1. specialize (IH st Hf).
  destruct (iterate f l st) as [[ys | e] st']; assumption.
Qed.

Lemma Array_map_keeps (P : MapObj.t -> Prop) (f : value -> M value) (a : value) :
  (forall x m, P m -> P (snd (f x m))) ->
  forall m, P m -> P (snd (Array_map a f m)).
Proof.
  intros Hf m Hm. unfold Array_map.
  destruct a as [| | | | | c ps]; try assumption.
  destruct (holds_builtin (VObj c ps)); [assumption|]. destruct c; try assumption.
  unfold bind. pose proof (iterate_keeps P f Hf (map snd (elements ps)) m Hm) as H.
  destruct (iterate f (map snd (elements ps)) m) as [[ys | e] st]; assumption.
Qed.

Lemma Array_forEach_keeps (P : MapObj.t -> Prop) (f : value -> M value) (a : value) :
  (forall x m, P m -> P (snd (f x m))) ->
  forall m, P m -> P (snd (Array_forEach a f m)).
Proof.
  intros Hf m Hm. unfold Array_forEach.
  destruct a as [| | | | | c ps]; try assumption.
  destruct (holds_builtin (VObj c ps)); [assumption|]. destruct c; try assumption.
  unfold bind. pose proof (iterate_keeps P f Hf (map snd (elements ps)) m Hm) as H.
  destruct (iterate f (map snd (elements ps)) m) as [[ys | e] st]; assumption.
Qed.

Section StringsOnly.

Context {J : JSON}.

(** What the functions rely on: [JSON.stringify] of an object that is not a
    function is a string, and [JSON.parse] returns no function. *)
Hypothesis stringify_object :
  forall v, instanceof_Object v = true -> typeof v <> "function" ->
            typeof (JSON_stringify v) = "string".

Hypothesis parse_no_function :
  forall v r, JSON_parse v = Ok r -> typeof r <> "function".

Lemma mergeItem_keeps (name v : value) (m : MapObj.t) :
  strings_only m -> strings_only (snd (mergeItem name v m)).
Proof.
  intros Hm. unfold mergeItem.
  destruct (negb (typeof v =? "string")%string); [assumption|].
  unfold bind, internal_get, lift, internal_set.
  destruct (JSON_parse (MapObj.get m name)) as [old | e] eqn:Eo; [|assumption].
  destruct (JSON_parse v) as [new | e]; [|assumption].
  destruct (merge old new) as [[r d] | e] eqn:Em; [|assumption].
  cbn [snd fst]. apply strings_only_set; [assumption|].
  apply merge_typeof in Em as [H1 H2]; [|eapply parse_no_function, Eo].
  now apply stringify_object.
Qed.

Lemma functions_keep (name : string) (fn : list value -> M value)
    (args : list value) (m : MapObj.t) :
  In (name, fn) functions -> strings_only m -> strings_only (snd (fn args m)).
Proof.
  intros Hf Hm. table_cases Hf.
  - now rewrite getItem_spec.
  - unfold setItem. destruct (typeof (arg 1 args) =? "string")%string eqn:E; cbn [negb].
    + apply strings_only_set; [assumption | now apply String.eqb_eq].
    + assumption.
  - now apply mergeItem_keeps.
  - now apply strings_only_delete.
  - now rewrite multiGet_reads.
  - unfold multiSet. unfold bind at 1.
    match goal with |- context [Array_forEach ?a ?f m] =>
      assert (H : strings_only (snd (Array_forEach a f m))) end.
    { apply Array_forEach_keeps; [|assumption].
      intros x m' Hm'. unfold bind, lift, throw, internal_set.
      destruct (get_prop x "1") as [p1 | e1]; [|assumption].
      destruct (typeof p1 =? "string")%string eqn:E1; cbn [negb]; [|assumption].
      destruct (get_prop x "0") as [p0 | e0]; [|assumption].
      apply strings_only_set; [assumption | now apply String.eqb_eq]. }
    now destruct (Array_forEach _ _ m) as [[r | e] st].
  - unfold multiMerge. apply Array_forEach_keeps; [|assumption].
    intros x m' Hm'. unfold bind at 1, lift at 1.
    destruct (get_prop x "1") as [p1 | e1]; [|assumption].
    destruct (negb (typeof p1 =? "string")%string); [assumption|].
    unfold bind at 1, lift at 1.
    destruct (get_prop x "0") as [p0 | e0]; [|assumption].
    pose proof (mergeItem_keeps p0 p1 m' Hm') as H. unfold mergeItem in H.
    destruct (negb (typeof p1 =? "string")%string) eqn:E; [|exact H].
    unfold bind, internal_get, lift, internal_set.
    destruct (JSON_parse (MapObj.get m' p0)) as [old | e] eqn:Eo; [|assumption].
    destruct (JSON_parse p1) as [new | e]; [|assumption].
    destruct (merge old new) as [[r d] | e] eqn:Em; [|assumption].
    cbn [snd fst]. apply strings_only_set; [assumption|].
    apply merge_typeof in Em as [H1 H2]; [|eapply parse_no_function, Eo].
    now apply stringify_object.
  - unfold multiRemove. apply Array_map_keeps; [|assumption].
    intros x m' Hm'. now apply strings_only_delete.
  - assumption.
  - constructor.
  - assumption.
Qed.

End StringsOnly.

Lemma strings_only_get (m : MapObj.t) (k : value) :
  strings_only m -> MapObj.has m k = true -> typeof (MapObj.get m k) = "string".
Proof.
  unfold strings_only. induction 1 as [|[k' v'] m Hv _ IH]; simpl; [discriminate|].
  destruct (MapObj.same_value_zero k' k); simpl; auto.
Qed.



(** ** [multiSet], then [getItem] *)

Lemma get_set_all (l : list (string * value)) (m : MapObj.t) (k : string) :
  MapObj.get (set_all l m) (VStr k) =
    match lookup k (rev l) with
    | Some v => v
    | None => MapObj.get m (VStr k)
    end /\
  MapObj.has (set_all l m) (VStr k) =
    match lookup k (rev l) with
    | Some _ => true
    | None => MapObj.has m (VStr k)
    end.
Proof.
  induction l as [|[k0 v0] l IH] using rev_ind; [now split|].
  unfold set_all in *. rewrite fold_left_app, rev_app_distr. cbn [fold_left rev app lookup fst snd].
  destruct (String.eqb_spec k0 k) as [-> | Hne].
  - split; [apply get_set_same | apply has_set_same]; apply String.eqb_refl.
  - destruct IH as [IH1 IH2]. rewrite <- IH1, <- IH2.
    split; [apply get_set_other | apply has_set_other];
      simpl; apply String.eqb_neq; congruence.
Qed.

(** X10. After [multiSet] of pairs whose values are strings, which returns
    its argument, [getItem(k)] returns the value of the last pair with key
    [k], and what [k] held before when no pair has that key. *)
Theorem multiSet_then_getItem (l : list (string * value)) (internal : MapObj.t)
    (k : string) :
  (N.of_nat (List.length l) <= max_length)%N ->
  Forall (fun kv => exists s, snd kv = VStr s) l ->
  exists internal',
    multiSet (array_of (map pair_of l)) internal =
      (Ok (array_of (map pair_of l)), internal') /\
    getItem (VStr k) internal' =
      (Ok match lookup k (rev l) with
          | Some v => v
          | None => if MapObj.has internal (VStr k)
                    then MapObj.get internal (VStr k) else VNull
          end,
       internal').
Proof.
  intros H Hl. exists (set_all l internal). split.
  - unfold multiSet.
    match goal with |- context [Array_forEach _ ?f] => set (body := f) end.
    unfold bind at 1. rewrite Array_forEach_array_of by now rewrite List.length_map.
    destruct (iterate_set_all body) with (l := l) (m := internal) as [ys E];
      [reflexivity | assumption |]. now rewrite E.
  - rewrite getItem_spec. destruct (get_set_all l internal k) as [-> ->].
    now destruct (lookup k (rev l)).
Qed.

Lemma multiSet_then_getItem_witness :
  exists internal',
    multiSet (array_of (map pair_of [("bar.1", VStr "1"); ("bar.2", VStr "2");
                                     ("bar.1", VStr "3")])) [] =
      (Ok (array_of (map pair_of [("bar.1", VStr "1"); ("bar.2", VStr "2");
                                  ("bar.1", VStr "3")])), internal') /\
    getItem (VStr "bar.1") internal' = (Ok (VStr "3"), internal').
Proof.
  apply (multiSet_then_getItem
           [("bar.1", VStr "1"); ("bar.2", VStr "2"); ("bar.1", VStr "3")] [] "bar.1").
  - vm_compute. discriminate.
  - repeat constructor; now eexists.
Defined.

(** ** More on the deep merge *)

Lemma get_prop_not_nullish (v : value) (k : string) :
  nullish v = false -> reserved k = false ->
  get_prop v k = Ok (match lookup k (own_props v) with
                     | Some x => x
                     | None => VUndefined
                     end).
Proof.
  intros Hv Hk. unfold get_prop. rewrite Hk. destruct v; try discriminate; reflexivity.
Qed.

(** A read that returns is not under a built-in name. *)
Lemma get_prop_reserved (v x : value) (k : string) :
  get_prop v k = Ok x -> reserved k = false.
Proof. unfold get_prop. destruct v, (reserved k); try discriminate; reflexivity. Qed.

Lemma target_or_object (target : value) :
  nullish (if truthy target then target else VObj Plain []) = false.
Proof.
  destruct (truthy target) eqn:E; [|reflexivity].
  destruct target; try discriminate; reflexivity.
Qed.

Lemma has_key_keys (k : string) (ps qs : props) :
  map fst ps = map fst qs -> has_key k ps = has_key k qs.
Proof.
  intros H. unfold has_key.
  destruct (lookup k ps) eqn:E1, (lookup k qs) eqn:E2; try reflexivity.
  - apply lookup_None in E2. rewrite <- H in E2. apply lookup_None in E2. congruence.
  - apply lookup_None in E1. rewrite H in E1. apply lookup_None in E1. congruence.
Qed.

(** X11. For values none of whose keys is a built-in name: when
    [merge(target, data)] returns, a key that [data] does not have and that
    reads in [target || {}] reads the same in the result, and the result
    has the keys of [data] and of [target || {}] and no others. *)
Theorem merge_keys (target data m d' : value) :
  ordinary target = true -> ordinary data = true ->
  NoDup (map fst (own_props data)) ->
  merge target data = Ok (m, d') ->
  (forall k x, lookup k (own_props data) = None ->
     get_prop (if truthy target then target else VObj Plain []) k = Ok x ->
     get_prop m k = Ok x) /\
  (forall k, has_key k (own_props m) =
             has_key k (own_props data) ||
             has_key k (own_props (if truthy target then target else VObj Plain []))).
Proof.
  intros _ _ Hnd H. split.
  - intros k x Hk Hx. pose proof (get_prop_reserved _ _ _ Hx) as Hr.
    rewrite (get_prop_not_nullish _ k (target_or_object target) Hr) in Hx.
    rewrite <- Hx, <- (merge_keeps_target_keys _ _ _ _ k Hnd Hk H).
    apply get_prop_object; [|exact Hr]. now apply (merge_result_lookup _ _ _ _ Hnd H).
  - intros k. destruct (merge_result_lookup _ _ _ _ Hnd H) as [_ Hl].
    apply merge_assigned in H as (_ & _ & Hkeys & _).
    rewrite <- (has_key_keys k _ _ Hkeys). unfold has_key. rewrite Hl.
    now destruct (lookup k (own_props d')).
Qed.

Lemma merge_keys_witness :
  exists m d',
    merge (object_of [("foo", VStr "bar"); ("deep", object_of [("foo", VStr "bar")])])
          (object_of [("deep", object_of [("foo", VStr "value")])]) = Ok (m, d') /\
    get_prop m "foo" = Ok (VStr "bar").
Proof.
  eexists _, _. split; [reflexivity|].
  refine (proj1 (merge_keys
            (object_of [("foo", VStr "bar"); ("deep", object_of [("foo", VStr "bar")])])
            (object_of [("deep", object_of [("foo", VStr "value")])]) _ _
            eq_refl eq_refl _ eq_refl)
          "foo" (VStr "bar") eq_refl eq_refl).
  vm_compute. repeat constructor; simpl; tauto.
Defined.

(** X12. On values that hold no built-in name the only thing [merge]
    throws is a TypeError; so, where the stored and the given text parse to
    such values, [mergeItem] throws its own error for a value that is not a
    string, what [JSON.parse] throws on the stored or on the given text, or
    a TypeError, and nothing else. *)
Theorem mergeItem_errors {J : JSON} (name v : value) (internal internal' : MapObj.t)
    (e : exn) :
  (forall old, JSON_parse (MapObj.get internal name) = Ok old -> ordinary old = true) ->
  (forall new, JSON_parse v = Ok new -> ordinary new = true) ->
  mergeItem name v internal = (Throw e, internal') ->
  ((forall s, v <> VStr s) /\ e = Error "AsyncStorage requires strings to be stored") \/
  JSON_parse (MapObj.get internal name) = Throw e \/
  JSON_parse v = Throw e \/
  (e = TypeError /\
   exists old new, JSON_parse (MapObj.get internal name) = Ok old /\
                   JSON_parse v = Ok new /\ merge old new = Throw TypeError).
Proof.
  intros Hold Hnew.
  unfold mergeItem. destruct (typeof v =? "string")%string eqn:Ev; cbn [negb].
  - unfold bind, internal_get, lift, internal_set.
    destruct (JSON_parse (MapObj.get internal name)) as [old | e0] eqn:Eo.
    + destruct (JSON_parse v) as [new | e1] eqn:En.
      * destruct (merge old new) as [[m d] | e2] eqn:Em; [discriminate|].
        intros H. injection H as <- _. right. right. right.
        pose proof (merge_throws _ _ _ (Hold old eq_refl) (Hnew new eq_refl) Em) as ->.
        split; [reflexivity|]. now exists old, new.
      * intros H. injection H as <- _. now right; right; left.
    + intros H. injection H as <- _. now right; left.
  - intros H. injection H as <- _. left. split; [|reflexivity].
    intros s ->. discriminate Ev.
Qed.

Lemma mergeItem_errors_witness :
  exists old new,
    JSON_parse (MapObj.get [(VStr "json", VStr "5")] (VStr "json")) = Ok old /\
    JSON_parse (VStr "null") = Ok new /\ merge old new = Throw TypeError.
Proof.
  destruct (mergeItem_errors (J := json) (VStr "json") (VStr "null")
              [(VStr "json", VStr "5")] [(VStr "json", VStr "5")] TypeError)
    as [[_ H] | [H | [H | [_ H]]]]; try discriminate H.
  - intros old H. vm_compute in H. now injection H as <-.
  - intros new H. vm_compute in H. now injection H as <-.
  - reflexivity.
  - exact H.
Defined.

(** X13. Where the value [k] holds parses to a value without entry at a
    key, and the text given to [mergeItem] parses to a value that has at
    that key an object which itself holds an object, [mergeItem] throws a
    TypeError and stores nothing.  Neither value holds a built-in name. *)
Theorem mergeItem_absent_nested {J : JSON} (k s key j : string)
    (old new d d2 : value) (internal : MapObj.t) :
  JSON_parse (MapObj.get internal (VStr k)) = Ok old ->
  JSON_parse (VStr s) = Ok new ->
  ordinary old = true -> ordinary new = true ->
  lookup key (own_props new) = Some d ->
  lookup j (own_props d) = Some d2 ->
  instanceof_Object d = true ->
  instanceof_Object d2 = true ->
  get_prop old key = Ok VUndefined ->
  mergeItem (VStr k) (VStr s) internal = (Throw TypeError, internal).
Proof.
  intros Ho Hn Hoo Hno Hd Hd2 Hi Hi2 Hk. unfold mergeItem. cbn [typeof].
  rewrite String.eqb_refl. cbn [negb].
  unfold bind, internal_get, lift. rewrite Ho, Hn.
  now rewrite (merge_absent_nested_throws old new d d2 key j).
Qed.

Lemma mergeItem_absent_nested_witness :
  mergeItem (VStr "json")
    (JSON_stringify (object_of [("a", object_of [("b", object_of [])])]))
    [(VStr "json", JSON_stringify (object_of []))] =
  (Throw TypeError, [(VStr "json", JSON_stringify (object_of []))]).
Proof.
  apply (mergeItem_absent_nested (J := json) "json" _ "a" "b" (object_of [])
           (object_of [("a", object_of [("b", object_of [])])])
           (object_of [("b", object_of [])]) (object_of []));
    reflexivity.
Defined.

Lemma update_same (k : string) (v : value) (ps : props) :
  lookup k ps = Some v -> update k v ps = ps.
Proof.
  induction ps as [|[k0 v0] ps IH]; simpl; [reflexivity|].
  destruct (k0 =? k)%string.
  - intros H. now injection H as ->.
  - intros H. now rewrite IH.
Qed.

Lemma put_same (k : string) (v : value) (ps : props) :
  lookup k ps = Some v -> put k v ps = ps.
Proof.
  intros H. unfold put, has_key. rewrite H. now apply update_same.
Qed.

(** Writing to an object what it holds leaves it as it is. *)
Lemma assign_props_same (qs ps : props) (c : kind) :
  string_like (VObj c ps) = false ->
  Forall (fun kv => reserved (fst kv) = false) qs ->
  (forall k v, In (k, v) qs -> lookup k ps = Some v) ->
  assign_props (VObj c ps) qs = Ok (VObj c ps).
Proof.
  intros Hc Hr. induction Hr as [|[k v] qs Hk _ IH]; intros H; [reflexivity|].
  cbn [assign_props]. cbn [fst] in Hk.
  assert (E : set_prop (VObj c ps) k v = Ok (VObj c ps)).
  { unfold set_prop. rewrite Hk.
    destruct c; try discriminate; now rewrite put_same by (apply H; now left). }
  rewrite E. cbn [rbind]. apply IH. intros k' v' Hin. apply H. now right.
Qed.

Lemma assign_props_string_like (qs : props) (o m : value) :
  assign_props o qs = Ok m -> string_like m = string_like o.
Proof.
  revert o. induction qs as [|[k v] qs IH]; intros o; simpl.
  - intros H. now injection H as <-.
  - destruct (set_prop o k v) as [o' | e] eqn:E; [|discriminate]. cbn [rbind].
    intros H. rewrite (IH _ H).
    destruct o as [| | | | | c ps]; try discriminate.
    unfold set_prop in E. destruct (reserved k); [discriminate|].
    destruct c; simpl in E; try (now injection E as <-).
    destruct (has_key k (chars s)); [discriminate | now injection E as <-].
Qed.

(** X14. Merging the same flat value a second time changes nothing: for
    values none of whose keys is a built-in name, when [merge(target, data)]
    returns [m], for a [data] none of whose values is an object and a
    [target] that is not a string, [data] is left as it was and
    [merge(m, data)] returns [m] again. *)
Theorem merge_idempotent (target data m d' : value) :
  ordinary target = true -> ordinary data = true ->
  flat data ->
  NoDup (map fst (own_props data)) ->
  string_like target = false ->
  merge target data = Ok (m, d') ->
  d' = data /\ merge m data = Ok (m, data).
Proof.
  intros _ Hdo Hflat Hnd Hs H.
  pose proof (merge_assigned _ _ _ _ H) as (Hnull & Ha & _ & _).
  pose proof (ordinary_holds_builtin _ Hdo) as Hr.
  assert (Hd : d' = data).
  { assert (Hn : nullish data = false).
    { destruct data; try reflexivity; simpl in H; discriminate. }
    destruct (merge_flat_returns target data Hflat Hn Hs Hr) as [m0 E].
    rewrite E in H. now injection H as _ <-. }
  subst d'. split; [reflexivity|].
  destruct (merge_result_lookup _ _ _ _ Hnd H) as [Hm Hl].
  assert (Hsm : string_like m = false).
  { unfold Object_assign in Ha.
    destruct (to_object _) as [o | e] eqn:Eo; [|discriminate]. cbn [rbind] in Ha.
    assert (Ho : string_like o = false).
    { destruct (truthy target); [|now injection Eo as <-].
      destruct target as [| | | | | c ps]; try discriminate; simpl in Eo;
        injection Eo as <-; try reflexivity; assumption. }
    destruct data; try discriminate;
      try (injection Ha as <-; exact Ho);
      rewrite <- Ho; eapply assign_props_string_like, Ha. }
  destruct (merge_flat_returns m data Hflat Hnull Hsm Hr) as [m2 E].
  rewrite E. do 2 f_equal.
  apply merge_assigned in E as (_ & Ha2 & _ & _).
  destruct m as [| | | | | c ps]; try discriminate. cbn [truthy] in Ha2.
  unfold Object_assign in Ha2. cbn [to_object rbind] in Ha2.
  assert (Hsame : assign_props (VObj c ps) (own_props data) = Ok (VObj c ps)).
  { apply assign_props_same; [assumption | now apply holds_builtin_false |].
    intros k v Hin. specialize (Hl k).
    rewrite (lookup_NoDup k v _ Hnd Hin) in Hl.
    destruct c; try discriminate; exact Hl. }
  destruct data; try discriminate; rewrite Hsame in Ha2; now injection Ha2.
Qed.

Lemma merge_idempotent_witness :
  merge (object_of [("b", VStr "x"); ("a", VNum 1)]) (object_of [("a", VNum 1)]) =
  Ok (object_of [("b", VStr "x"); ("a", VNum 1)], object_of [("a", VNum 1)]).
Proof.
  refine (proj2 (merge_idempotent (object_of [("b", VStr "x")]) (object_of [("a", VNum 1)])
                   (object_of [("b", VStr "x"); ("a", VNum 1)]) _ _ _ _ _ _ _)).
  - reflexivity.
  - reflexivity.
  - repeat constructor.
  - vm_compute. repeat constructor; simpl; tauto.
  - reflexivity.
  - vm_compute. reflexivity.
Defined.

(** ** The recursion of the deep merge *)

Lemma update_keys (k : string) (v : value) (ps : props) :
  map fst (update k v ps) = map fst ps.
Proof.
  induction ps as [|[k0 v0] ps IH]; simpl; [reflexivity|].
  destruct (k0 =? k)%string; simpl; [reflexivity | now rewrite IH].
Qed.

Lemma insert_index_keys (n : N) (k : string) (v : value) (ps : props) :
  Permutation (map fst (insert_index n k v ps)) (k :: map fst ps).
Proof.
  induction ps as [|[k0 v0] ps IH]; simpl; [reflexivity|].
  destruct (array_index k0) as [i|]; [|reflexivity].
  destruct (n <? i)%N; simpl; [reflexivity|].
  rewrite IH. apply perm_swap.
Qed.

(** The keys after a write: the same, or one more. *)
Lemma put_keys (k : string) (v : value) (ps : props) :
  if has_key k ps then map fst (put k v ps) = map fst ps
  else Permutation (map fst (put k v ps)) (k :: map fst ps).
Proof.
  unfold put. destruct (has_key k ps); [apply update_keys|].
  destruct (array_index k); [apply insert_index_keys|].
  rewrite map_app. simpl. symmetry. apply Permutation_cons_append.
Qed.

Lemma set_prop_NoDup (o o' : value) (k : string) (v : value) :
  set_prop o k v = Ok o' ->
  NoDup (map fst (own_props o)) -> NoDup (map fst (own_props o')).
Proof.
  destruct o as [| | | | | c ps]; try discriminate.
  intros H Hnd.
  assert (Hsplit : exists pre,
             own_props (VObj c ps) = pre ++ ps /\
             own_props o' = pre ++ put k v ps /\ lookup k pre = None).
  { unfold set_prop in H. destruct (reserved k); [discriminate|].
    destruct c; simpl in H;
      try (injection H as <-; exists []; now repeat split).
    destruct (has_key k (chars s)) eqn:E; [discriminate|]. injection H as <-.
    exists (chars s). repeat split. unfold has_key in E.
    now destruct (lookup k (chars s)). }
  destruct Hsplit as (pre & E1 & E2 & Hpre). rewrite E1 in Hnd. rewrite E2.
  rewrite map_app in *. pose proof (put_keys k v ps) as Hk.
  destruct (has_key k ps) eqn:E; [now rewrite Hk|].
  eapply Permutation_NoDup.
  - symmetry. etransitivity; [apply Permutation_app_head, Hk|].
    symmetry. apply Permutation_middle.
  - constructor; [|assumption].
    intros Hin. apply in_app_or in Hin as [Hin | Hin].
    + now apply lookup_None in Hpre.
    + unfold has_key in E. destruct (lookup k ps) eqn:El; [discriminate|].
      now apply lookup_None in El.
Qed.

Lemma assign_props_NoDup (qs : props) (o m : value) :
  assign_props o qs = Ok m ->
  NoDup (map fst (own_props o)) -> NoDup (map fst (own_props m)).
Proof.
  revert o. induction qs as [|[k v] qs IH]; intros o; simpl.
  - intros H. now injection H as <-.
  - destruct (set_prop o k v) as [o' | e] eqn:E; [|discriminate]. cbn [rbind].
    intros H Hnd. apply (IH _ H). eapply set_prop_NoDup; eassumption.
Qed.

Lemma Object_assign_NoDup (to from m : value) :
  Object_assign to from = Ok m ->
  NoDup (map fst (own_props to)) -> NoDup (map fst (own_props m)).
Proof.
  unfold Object_assign. destruct (to_object to) as [o | e] eqn:Eo; [|discriminate].
  apply to_object_props in Eo as [_ Hp]. cbn [rbind]. rewrite <- Hp.
  destruct from; try (intros H; now injection H as <-); apply assign_props_NoDup.
Qed.

(** What [merge] leaves at a key where [data] holds an object. *)
Lemma merged_child (target data m d' t d : value) (k : string) :
  NoDup (map fst (own_props data)) ->
  lookup k (own_props data) = Some d ->
  instanceof_Object d = true ->
  get_prop target k = Ok t ->
  NoDup (map fst (own_props t)) ->
  merge target data = Ok (m, d') ->
  exists m1 d1 r,
    merge t d = Ok (m1, d1) /\
    get_prop m k = Ok r /\
    instanceof_Object r = true /\
    forall j, lookup j (own_props r) = lookup j (own_props m1).
Proof.
  intros Hnd Hk Hd Ht Hndt H.
  destruct (merge_result_lookup _ _ _ _ Hnd H) as [Hm Hl].
  apply merge_assigned in H as (_ & _ & _ & Hp).
  destruct (Hp k d Hk) as (r & Hr & _ & Hmp). cbn [fst snd] in Hmp.
  rewrite Hd in Hmp. destruct Hmp as (t' & m1 & d1 & Ht' & Hm1 & Ha).
  rewrite Ht in Ht'. injection Ht' as <-.
  exists m1, d1, r. split; [assumption|].
  split; [now rewrite (get_prop_object m k Hm (get_prop_reserved _ _ _ Ht)), Hl, Hr|].
  pose proof (merge_assigned _ _ _ _ Hm1) as (Hnull1 & Ha1 & _ & _).
  assert (Hnd1 : NoDup (map fst (own_props m1))).
  { apply (Object_assign_NoDup _ _ _ Ha1).
    destruct (truthy t); [assumption | constructor]. }
  assert (Hnull : nullish m1 = false).
  { apply Object_assign_lookup in Ha1 as [Ho _]; [|assumption].
    destruct m1; try discriminate; reflexivity. }
  apply Object_assign_lookup in Ha1 as [_ Hl1]; [|assumption].
  apply Object_assign_lookup in Ha as [Hobj Hl2]; [|assumption].
  split; [assumption|]. intros j. rewrite Hl2, lookup_rev by assumption.
  destruct (lookup j (own_props m1)) eqn:E; [reflexivity|].
  rewrite Hl1 in E. destruct (lookup j (rev (own_props d1))) eqn:Er; [discriminate|].
  apply lookup_None. apply lookup_None in Er.
  now rewrite map_rev, <- in_rev in Er.
Qed.

(** X15. The merge goes into nested objects: for values none of whose keys
    is a built-in name, where [data] holds an object [d] at a key and
    [target] holds [t] there (both with distinct keys), a call
    [merge(target, data)] that returns has made the call [merge(t, d)], and
    its result reads at that key, property by property, as the value that
    call returned. *)
Theorem merge_recurses (target data m d' t d : value) (k : string) :
  ordinary target = true -> ordinary data = true ->
  NoDup (map fst (own_props data)) ->
  lookup k (own_props data) = Some d ->
  instanceof_Object d = true ->
  get_prop target k = Ok t ->
  NoDup (map fst (own_props t)) ->
  merge target data = Ok (m, d') ->
  exists m1 d1 r,
    merge t d = Ok (m1, d1) /\
    get_prop m k = Ok r /\
    instanceof_Object r = true /\
    forall j, lookup j (own_props r) = lookup j (own_props m1).
Proof. intros _ _. apply merged_child. Qed.

Lemma merge_recurses_witness :
  exists m1 d1 r,
    merge (object_of [("baz", VStr "boat")])
          (object_of [("ly", VStr "added"); ("baz", VStr "overriden")]) = Ok (m1, d1) /\
    get_prop (object_of [("foo", VStr "bar");
                         ("deep", object_of [("ly", VStr "added");
                                             ("baz", VStr "overriden")])]) "deep" = Ok r /\
    instanceof_Object r = true /\
    forall j, lookup j (own_props r) = lookup j (own_props m1).
Proof.
  apply (merge_recurses
           (object_of [("foo", VStr "bar"); ("deep", object_of [("baz", VStr "boat")])])
           (object_of [("deep", object_of [("ly", VStr "added"); ("baz", VStr "overriden")])])
           _
           (object_of [("deep", object_of [("ly", VStr "added"); ("baz", VStr "overriden")])])
           _ _ "deep").
  - reflexivity.
  - reflexivity.
  - vm_compute. repeat constructor; simpl; tauto.
  - reflexivity.
  - reflexivity.
  - reflexivity.
  - vm_compute. repeat constructor; simpl; tauto.
  - reflexivity.
Defined.

(** [merge] into a falsy [target] returns when [data] holds no object and
    no built-in name. *)
Lemma merge_flat_returns_falsy (target data : value) :
  flat data -> nullish data = false -> truthy target = false ->
  holds_builtin data = false ->
  exists m, merge target data = Ok (m, data).
Proof.
  intros Hflat Hnull Hfalsy Hr.
  assert (Hfin : exists m, merge_finish target data = Ok (m, data)).
  { unfold merge_finish. rewrite Hfalsy.
    destruct (Object_assign_returns (VObj Plain []) data) as [m Hm];
      try reflexivity; try assumption.
    exists m. now rewrite Hm. }
  destruct (instanceof_Object data) eqn:Hd.
  - destruct data as [| | | | | c ps]; try discriminate.
    rewrite merge_object, merge_each_flat; [exact Hfin|].
    unfold flat in Hflat. rewrite own_props_split in Hflat.
    now apply Forall_app in Hflat.
  - rewrite merge_primitive by assumption.
    destruct data; try discriminate; exact Hfin.
Qed.

(** X16. For values none of whose keys is a built-in name: where [target]
    holds nothing at a key, or something falsy ([null], [0], the empty
    string, [false]), and [data] holds there an object [d] none of whose
    values is an object, a call [merge(target, data)] that returns leaves
    at that key an object with the properties of [d] and no others. *)
Theorem merge_into_absent (target data m d' t d : value) (k : string) :
  ordinary target = true -> ordinary data = true ->
  NoDup (map fst (own_props data)) ->
  lookup k (own_props data) = Some d ->
  instanceof_Object d = true ->
  NoDup (map fst (own_props d)) ->
  flat d ->
  get_prop target k = Ok t ->
  truthy t = false ->
  merge target data = Ok (m, d') ->
  exists r,
    get_prop m k = Ok r /\
    instanceof_Object r = true /\
    forall j, lookup j (own_props r) = lookup j (own_props d).
Proof.
  intros _ _ Hnd Hk Hd Hndd Hflat Ht Hfalsy H.
  assert (Hndt : NoDup (map fst (own_props t))).
  { destruct t as [| | | | s |]; try discriminate Hfalsy; simpl; try constructor.
    destruct s; [constructor | simpl in Hfalsy; discriminate Hfalsy]. }
  destruct (merged_child _ _ _ _ _ _ _ Hnd Hk Hd Ht Hndt H)
    as (m1 & d1 & r & Hm1 & Hr & Hobj & Hl).
  assert (Hr' : holds_builtin d = false).
  { apply holds_builtin_false, Forall_forall. intros [j0 v0] Hin.
    apply (merge_returns_keys _ _ _ _ Hm1 j0 v0). now apply lookup_NoDup. }
  exists r. repeat split; try assumption.
  intros j. rewrite Hl.
  assert (Hn : nullish d = false) by (destruct d; try discriminate; reflexivity).
  destruct (merge_flat_returns_falsy t d Hflat Hn Hfalsy Hr') as [m0 E].
  rewrite E in Hm1. injection Hm1 as <- <-.
  destruct (merge_result_lookup _ _ _ _ Hndd E) as [_ Hl0].
  rewrite Hl0, Hfalsy. simpl. now destruct (lookup j (own_props d)).
Qed.

Lemma merge_into_absent_witness :
  exists r,
    get_prop (object_of [("foo", VStr "bar"); ("must", object_of [("go", VStr "deeper")])])
      "must" = Ok r /\
    instanceof_Object r = true /\
    forall j, lookup j (own_props r) = lookup j (own_props (object_of [("go", VStr "deeper")])).
Proof.
  apply (merge_into_absent (object_of [("foo", VStr "bar")])
           (object_of [("must", object_of [("go", VStr "deeper")])]) _
           (object_of [("must", object_of [("go", VStr "deeper")])])
           VUndefined (object_of [("go", VStr "deeper")]) "must").
  - reflexivity.
  - reflexivity.
  - vm_compute. repeat constructor; simpl; tauto.
  - reflexivity.
  - reflexivity.
  - vm_compute. repeat constructor; simpl; tauto.
  - repeat constructor.
  - reflexivity.
  - reflexivity.
  - reflexivity.
Defined.
